(** * Shared filter-group state of the catalog plugin

    A shallow embedding of the hook [useProvideEntityFilters] and of the two
    pure functions [buildStates] and [buildMatchingEntities] it calls, followed
    by the properties the design document states about them.

    Modelling conventions.
    - A JavaScript object used as a dictionary is a [gmap string _]; only its
      own string-keyed properties are modelled.  [Object.entries] and
      [Object.keys] are [map_to_list] and its first projection: the order of
      enumeration is left abstract, every loop below is written as a left fold
      over that list, and the results are shown not to depend on the order.
    - A [Set<string>] is a [gset string]; iterating over it is a fold over
      [elements].
    - Strings are Rocq strings; a template literal is a concatenation.
    - [Entity] and [Error] are imported types the hook never inspects: they are
      parameters.  A filter function is a total pure function to [bool].
    - An optional argument is an [option]; an array and an [Error] object are
      truthy, so [if (error)] and [if (!entities)] test for [Some]/[None].
    - [useRef] cells are fields updated in place; [useState] cells are fields
      whose setter calls are queued and applied, in order, once the callback
      has returned, while the [const] binding read inside the callback keeps
      the value of the render that created the callback.  A callback
      therefore takes that binding, [captured], beside the store: the two
      registries agree when the callback is the only one called from its
      render, and differ when several calls are batched in one render. *)

From Stdlib Require Import Ascii.
From stdpp Require Import gmap strings list fin_maps.


(** ** Strings *)

(** [key.startsWith(p)] *)
Fixpoint startsWith (s p : string) {struct p} : bool :=
  match p with
  | EmptyString => true
  | String c p' =>
      match s with
      | EmptyString => false
      | String d s' => if decide (c = d) then startsWith s' p' else false
      end
  end.

(** [`${filterGroupId}.${filterId}`] *)
Definition selectionKey (filterGroupId filterId : string) : string :=
  filterGroupId +:+ "." +:+ filterId.

(** Whether a string contains the separator character. *)
Fixpoint hasDot (s : string) : bool :=
  match s with
  | EmptyString => false
  | String c s' => if decide (c = "."%char) then true else hasDot s'
  end.

(** ** React state cells *)

(** The argument of a [useState] setter: a new value or an updater. *)
Inductive SetStateAction (S : Type) : Type :=
  | SetValue (v : S)
  | SetUpdater (f : S → S).
Arguments SetValue {S} v.
Arguments SetUpdater {S} f.

Definition applyAction {S : Type} (old : S) (a : SetStateAction S) : S :=
  match a with
  | SetValue v => v
  | SetUpdater f => f old
  end.

(** The setter calls made during one callback, applied in call order. *)
Definition flush {S : Type} (queue : list (SetStateAction S)) (old : S) : S :=
  foldl applyAction old queue.

(** [Object.fromEntries]: later entries overwrite earlier ones. *)
Definition fromEntries {V : Type} (l : list (string * V)) : gmap string V :=
  foldl (λ o kv, <[kv.1 := kv.2]> o) ∅ l.

Section Model.
Context {Entity Error : Type}.

(** ** Data model (./types) *)

(** [EntityFilterFn]: a notation, so that maps of filters have one type. *)
Local Abbreviation EntityFilterFn := (Entity → bool).

Record FilterGroup : Type := mkFilterGroup {
  filters : gmap string EntityFilterFn
}.

Record FilterState : Type := mkFilterState {
  isSelected : bool;
  matchCount : nat
}.

(** The field is [filters] in the source; renamed, since [filters] is
    already the projection of [FilterGroup]. *)
Record FilterGroupState : Type := mkFilterGroupState {
  state_filters : gmap string FilterState
}.

(** The union discriminated by [type]: 'loading', 'error', 'ready'. *)
Inductive FilterGroupStates : Type :=
  | StLoading
  | StError (error : Error)
  | StReady (state : FilterGroupState).

(** ** buildMatchingEntities *)

(** The inner loop: the selected filter functions of one group, pushed in
    enumeration order. *)
Definition groupFilters (selectedFilterKeys : gset string)
    (filterGroupId : string) (filterGroup : FilterGroup) : list EntityFilterFn :=
  foldl (λ acc '(filterId, filterFn),
           if decide (selectionKey filterGroupId filterId ∈ selectedFilterKeys)
           then acc ++ [filterFn] else acc)
        [] (map_to_list (filters filterGroup)).

(** [entity => groupFilters.some(fn => fn(entity))] *)
Definition someFn (fns : list EntityFilterFn) : EntityFilterFn :=
  λ entity, existsb (λ fn, fn entity) fns.

(** [entity => allFilters.every(fn => fn(entity))] *)
Definition everyFn (fns : list EntityFilterFn) : EntityFilterFn :=
  λ entity, forallb (λ fn, fn entity) fns.

(** The outer loop: one filter function per group that is not excluded and
    has a selected filter. *)
Definition allFilters (filterGroups : gmap string FilterGroup)
    (selectedFilterKeys : gset string)
    (excludeFilterGroupId : option string) : list EntityFilterFn :=
  foldl (λ acc '(filterGroupId, filterGroup),
           if decide (excludeFilterGroupId = Some filterGroupId) then acc
           else
             let gf := groupFilters selectedFilterKeys filterGroupId filterGroup in
             match length gf with
             | O => acc
             | S _ => acc ++ [someFn gf]
             end)
        [] (map_to_list filterGroups).

Definition buildMatchingEntities (filterGroups : gmap string FilterGroup)
    (selectedFilterKeys : gset string) (entities : option (list Entity))
    (excludeFilterGroupId : option string) : list Entity :=
  match entities with
  | Some es =>
      List.filter
        (everyFn (allFilters filterGroups selectedFilterKeys excludeFilterGroupId))
        es
  | None => []
  end.

(** ** buildStates *)

(** The loop over the filters of one group, filling [groupState.filters]. *)
Definition groupStateFilters (selectedFilterKeys : gset string)
    (otherMatchingEntities : list Entity)
    (filterGroupId : string) (filterGroup : FilterGroup) : gmap string FilterState :=
  foldl (λ acc '(filterId, filterFn),
           <[filterId :=
               {| isSelected :=
                    bool_decide (selectionKey filterGroupId filterId ∈ selectedFilterKeys);
                  matchCount :=
                    length (List.filter filterFn otherMatchingEntities) |}]> acc)
        ∅ (map_to_list (filters filterGroup)).

Definition buildStates (filterGroups : gmap string FilterGroup)
    (selectedFilterKeys : gset string) (entities : option (list Entity))
    (error : option Error) : gmap string FilterGroupStates :=
  match error with
  | Some err =>
      fromEntries
        (map (λ filterGroupId, (filterGroupId, StError err))
             (map_to_list filterGroups).*1)
  | None =>
      match entities with
      | None =>
          fromEntries
            (map (λ filterGroupId, (filterGroupId, StLoading))
                 (map_to_list filterGroups).*1)
      | Some es =>
          foldl (λ result '(filterGroupId, filterGroup),
                   let otherMatchingEntities :=
                     buildMatchingEntities filterGroups selectedFilterKeys
                       (Some es) (Some filterGroupId) in
                   <[filterGroupId :=
                       StReady {| state_filters :=
                                    groupStateFilters selectedFilterKeys
                                      otherMatchingEntities
                                      filterGroupId filterGroup |}]> result)
                ∅ (map_to_list filterGroups)
      end
  end.

(** ** The hook's state and its three callbacks *)

(** The four cells of [useProvideEntityFilters].  [filterGroups] and
    [filterGroupStates] are [useState] cells, [selectedFilterKeys] and
    [matchingEntities] are [useRef] cells. *)
Record Store : Type := mkStore {
  filterGroups : gmap string FilterGroup;
  filterGroupStates : gmap string FilterGroupStates;
  selectedFilterKeys : gset string;
  matchingEntities : list Entity
}.

Definition emptyStore : Store :=
  {| filterGroups := ∅; filterGroupStates := ∅;
     selectedFilterKeys := ∅; matchingEntities := [] |}.

(** The result of [useAsync], captured by the callbacks. *)
Variable entities : option (list Entity).
Variable error : option Error.

(** The keys merged by [register]; [initialSelectedFilterIds?.length] is
    falsy for a missing and for an empty array. *)
Definition registerKeys (filterGroupId : string)
    (initialSelectedFilterIds : option (list string))
    (current : gset string) : gset string :=
  match initialSelectedFilterIds with
  | Some ids =>
      match length ids with
      | O => current
      | S _ =>
          foldl (λ newKeys filterId, {[selectionKey filterGroupId filterId]} ∪ newKeys)
                current ids
      end
  | None => current
  end.

(** [register].  The updater queued on the registry is applied to the
    registry state of the store; the calls to [buildStates] and
    [buildMatchingEntities] read [captured], the binding [filterGroups] of
    the render that created the callback. *)
Definition register (captured : gmap string FilterGroup)
    (filterGroupId : string) (filterGroup : FilterGroup)
    (initialSelectedFilterIds : option (list string)) (s : Store) : Store :=
  let keys := registerKeys filterGroupId initialSelectedFilterIds (selectedFilterKeys s) in
  {| filterGroups :=
       flush [SetUpdater (λ oldGroups, <[filterGroupId := filterGroup]> oldGroups)]
             (filterGroups s);
     filterGroupStates :=
       flush [SetValue (buildStates captured keys entities error)]
             (filterGroupStates s);
     selectedFilterKeys := keys;
     matchingEntities := buildMatchingEntities captured keys entities None |}.

(** [unregister].  Two setter calls are queued on [filterGroupStates]: the
    updater that deletes the entry, then the value built from [captured],
    the binding [filterGroups] of the render that created the callback. *)
Definition unregister (captured : gmap string FilterGroup)
    (filterGroupId : string) (s : Store) : Store :=
  {| filterGroups :=
       flush [SetUpdater (λ oldGroups, delete filterGroupId oldGroups)]
             (filterGroups s);
     filterGroupStates :=
       flush [SetUpdater (λ oldStates, delete filterGroupId oldStates);
              SetValue (buildStates captured (selectedFilterKeys s)
                          entities error)]
             (filterGroupStates s);
     selectedFilterKeys := selectedFilterKeys s;
     matchingEntities :=
       buildMatchingEntities captured (selectedFilterKeys s) entities None |}.

(** The new selection set of [setGroupSelectedFilters]: the two loops. *)
Definition replaceGroupKeys (filterGroupId : string) (filterIds : list string)
    (current : gset string) : gset string :=
  let kept :=
    foldl (λ result key,
             if negb (startsWith key (filterGroupId +:+ "."))
             then {[key]} ∪ result else result)
          ∅ (elements current) in
  foldl (λ result key, {[selectionKey filterGroupId key]} ∪ result) kept filterIds.

(** [setGroupSelectedFilters].  The registry state is not touched; the
    published values are built from [captured]. *)
Definition setGroupSelectedFilters (captured : gmap string FilterGroup)
    (filterGroupId : string) (filterIds : list string) (s : Store) : Store :=
  let keys := replaceGroupKeys filterGroupId filterIds (selectedFilterKeys s) in
  {| filterGroups := filterGroups s;
     filterGroupStates :=
       flush [SetValue (buildStates captured keys entities error)]
             (filterGroupStates s);
     selectedFilterKeys := keys;
     matchingEntities := buildMatchingEntities captured keys entities None |}.

End Model.

Arguments FilterGroup : clear implicits.
Arguments FilterGroupStates : clear implicits.
Arguments Store : clear implicits.

(** ** Sample data

    The scenario of the design document: three entities, a group on the tag
    and a group on the identifier. *)

Record SampleEntity : Type := mkSample { id : nat; tag : string }.

Definition e1 : SampleEntity := mkSample 1 "a".
Definition e2 : SampleEntity := mkSample 2 "b".
Definition e3 : SampleEntity := mkSample 3 "a".
Definition sampleEntities : list SampleEntity := [e1; e2; e3].

Definition tagIs (t : string) : SampleEntity → bool := λ e, bool_decide (tag e = t).
Definition idAbove (n : nat) : SampleEntity → bool := λ e, bool_decide (n < id e).

Definition G1 : FilterGroup SampleEntity := {| filters := {[ "f1" := tagIs "a" ]} |}.
Definition G2 : FilterGroup SampleEntity := {| filters := {[ "f2" := idAbove 1 ]} |}.
Definition sampleRegistry : gmap string (FilterGroup SampleEntity) :=
  {[ "G1" := G1; "G2" := G2 ]}.

(** A group with two alternatives on the tag. *)
Definition GTag : FilterGroup SampleEntity :=
  {| filters := {[ "fa" := tagIs "a"; "fb" := tagIs "b" ]} |}.

(** Two groups whose ids and filter ids meet in the key "a.b.x". *)
Definition GA : FilterGroup SampleEntity := {| filters := {[ "b.x" := tagIs "a" ]} |}.
Definition GAB : FilterGroup SampleEntity := {| filters := {[ "x" := tagIs "b" ]} |}.
Definition dottedRegistry : gmap string (FilterGroup SampleEntity) :=
  {[ "a" := GA; "a.b" := GAB ]}.

(** The store reached by registering both groups and selecting "x" in
    "a.b", each callback being called from the render that follows the
    previous call. *)
Definition dottedStore : Store SampleEntity unit :=
  let s1 := register (Some sampleEntities) None ∅ "a" GA None emptyStore in
  let s2 := register (Some sampleEntities) None (filterGroups s1) "a.b" GAB None s1 in
  setGroupSelectedFilters (Some sampleEntities) None (filterGroups s2) "a.b" ["x"] s2.

(** A store that holds nothing but a selection set. *)
Definition storeOfKeys (keys : gset string) : Store SampleEntity unit :=
  {| filterGroups := ∅; filterGroupStates := ∅;
     selectedFilterKeys := keys; matchingEntities := [] |}.

(** The ready state of a group, if it has one. *)
Definition readyState {Error : Type}
    (states : gmap string (FilterGroupStates Error)) (filterGroupId : string)
    : option FilterGroupState :=
  match states !! filterGroupId with
  | Some (StReady st) => Some st
  | _ => None
  end.

(** ** The design document's reading of the matching rule

    An entity matches when, for every registered group with at least one
    selected filter, some selected filter of that group accepts it. *)

Definition selectedFilter {Entity : Type} (selectedFilterKeys : gset string)
    (filterGroupId : string) (filterGroup : FilterGroup Entity)
    (filterId : string) (filterFn : Entity → bool) : Prop :=
  filters filterGroup !! filterId = Some filterFn ∧
  selectionKey filterGroupId filterId ∈ selectedFilterKeys.

Definition hasSelection {Entity : Type} (selectedFilterKeys : gset string)
    (filterGroupId : string) (filterGroup : FilterGroup Entity) : Prop :=
  ∃ filterId filterFn,
    selectedFilter selectedFilterKeys filterGroupId filterGroup filterId filterFn.

Definition specMatches {Entity : Type} (filterGroups : gmap string (FilterGroup Entity))
    (selectedFilterKeys : gset string) (entity : Entity) : Prop :=
  ∀ filterGroupId filterGroup,
    filterGroups !! filterGroupId = Some filterGroup →
    hasSelection selectedFilterKeys filterGroupId filterGroup →
    ∃ filterId filterFn,
      selectedFilter selectedFilterKeys filterGroupId filterGroup filterId filterFn ∧
      filterFn entity = true.

(** The same reading with one group left out: what the selections of the
    groups other than [ownGroupId] ask of an entity.  The filters and the
    selection keys of [ownGroupId] do not occur in it. *)
Definition specMatchesOthers {Entity : Type}
    (filterGroups : gmap string (FilterGroup Entity))
    (selectedFilterKeys : gset string) (ownGroupId : string) (entity : Entity) : Prop :=
  ∀ filterGroupId filterGroup,
    filterGroups !! filterGroupId = Some filterGroup →
    filterGroupId ≠ ownGroupId →
    hasSelection selectedFilterKeys filterGroupId filterGroup →
    ∃ filterId filterFn,
      selectedFilter selectedFilterKeys filterGroupId filterGroup filterId filterFn ∧
      filterFn entity = true.

(** What one group asks of an entity: nothing when none of its filters is
    selected, otherwise that one of its selected filters accepts. *)
Definition groupAccepts {Entity : Type} (selectedFilterKeys : gset string)
    (filterGroupId : string) (filterGroup : FilterGroup Entity) : Entity → bool :=
  λ entity,
    match groupFilters selectedFilterKeys filterGroupId filterGroup with
    | [] => true
    | gf => someFn gf entity
    end.

(** ** The sidebar component (CatalogFilter.tsx)

    The parts of [useFilter] that compute: the filter group built from the
    imported table [entityFilters], and [getFilterCount] with the cell the
    component renders from it.  [useEntityFilterGroup], which connects the
    component to the hook above, is imported and not modelled; the state it
    hands to [getFilterCount] is an argument. *)

Module CatalogFilter.

(** The outcome of an expression that may dereference [undefined]. *)
Inductive Outcome (A : Type) : Type :=
  | Returned (a : A)
  | TypeError.
Arguments Returned {A} a.
Arguments TypeError {A}.

(** The object literal [{ userId, isStarred: isStarredEntity }]. *)
Record EntityFilterOptions (Entity : Type) : Type := mkOptions {
  userId : string;
  isStarred : Entity → bool
}.
Arguments userId {Entity} _.
Arguments isStarred {Entity} _.

(** The group built in [useMemo]: every entry of [entityFilters] applied to
    the options. *)
Definition filterGroup {Entity : Type}
    (entityFilters : gmap string (Entity → EntityFilterOptions Entity → bool))
    (options : EntityFilterOptions Entity) : FilterGroup Entity :=
  {| filters :=
       foldl (λ result '(filterId, filterFn),
                <[filterId := λ entity, filterFn entity options]> result)
             ∅ (map_to_list entityFilters) |}.

(** The property names every plain object inherits from
    [Object.prototype]: functions, and the accessor [__proto__]. *)
Definition objectPrototypeKeys : list string :=
  [ "constructor"; "hasOwnProperty"; "isPrototypeOf"; "propertyIsEnumerable";
    "toLocaleString"; "toString"; "valueOf"; "__proto__";
    "__defineGetter__"; "__defineSetter__"; "__lookupGetter__"; "__lookupSetter__" ].

(** What reading [o[k]] finds on a plain object whose own properties are
    [o]: the own value, else a value inherited from [Object.prototype],
    else [undefined]. *)
Inductive PropertyRead (A : Type) : Type :=
  | OwnValue (a : A)
  | InheritedValue
  | UndefinedValue.
Arguments OwnValue {A} a.
Arguments InheritedValue {A}.
Arguments UndefinedValue {A}.

Definition getProperty {A : Type} (o : gmap string A) (k : string) : PropertyRead A :=
  match o !! k with
  | Some a => OwnValue a
  | None => if decide (k ∈ objectPrototypeKeys) then InheritedValue else UndefinedValue
  end.

(** [getFilterCount]: [undefined] unless the state is ready.  In a ready
    state [state.state.filters[filterId].matchCount] is the count of an own
    entry, [undefined] when the read finds an inherited function or object
    (they have no [matchCount]), and a thrown [TypeError] when the read
    finds nothing. *)
Definition getFilterCount {Error : Type} (state : FilterGroupStates Error)
    (filterId : string) : Outcome (option nat) :=
  match state with
  | StReady st =>
      match getProperty (state_filters st) filterId with
      | OwnValue entry => Returned (Some (matchCount entry))
      | InheritedValue => Returned None
      | UndefinedValue => TypeError
      end
  | _ => Returned None
  end.

(** The cell [{getFilterCount(item.id) ?? '-'}]: the count, or a dash when
    the count is [undefined]. *)
Definition countCell {Error : Type} (state : FilterGroupStates Error)
    (filterId : string) : Outcome (nat + string) :=
  match getFilterCount state filterId with
  | Returned (Some n) => Returned (inl n)
  | Returned None => Returned (inr "-")
  | TypeError => TypeError
  end.

End CatalogFilter.





(** * Properties *)

(** ** Strings and selection keys *)

Lemma append_nil (t : string) : "" +:+ t = t.
Proof. reflexivity. Qed.

Lemma append_cons (c : ascii) (s t : string) :
  String c s +:+ t = String c (s +:+ t).
Proof. reflexivity. Qed.

Lemma append_assoc (s t u : string) : (s +:+ t) +:+ u = s +:+ t +:+ u.
Proof.
  induction s as [|c s IH]; [done |].
  by rewrite !append_cons, IH.
Qed.

Lemma startsWith_append (p t : string) : startsWith (p +:+ t) p = true.
Proof.
  induction p as [|c p IH]; [done |].
  rewrite append_cons. simpl. by rewrite decide_True.
Qed.

Lemma startsWith_spec (s p : string) :
  startsWith s p = true ↔ ∃ t, s = p +:+ t.
Proof.
  split.
  - revert s. induction p as [|c p IH]; intros s Hs.
    + by exists s.
    + destruct s as [|d s]; [done |]. simpl in Hs.
      case_decide as Hcd; [| done]. subst d.
      destruct (IH _ Hs) as [t ->]. by exists t.
  - intros [t ->]. apply startsWith_append.
Qed.

Lemma selectionKey_prefix (g f : string) :
  selectionKey g f = (g +:+ ".") +:+ f.
Proof. unfold selectionKey. by rewrite append_assoc. Qed.

Lemma selectionKey_startsWith (g f : string) :
  startsWith (selectionKey g f) (g +:+ ".") = true.
Proof. rewrite selectionKey_prefix. apply startsWith_append. Qed.

Lemma selectionKey_inj (g f f' : string) :
  selectionKey g f = selectionKey g f' → f = f'.
Proof.
  unfold selectionKey. intros H.
  apply (inj (String.app g)) in H. by apply (inj (String.app ".")) in H.
Qed.

(** A group whose id extends [g ++ "."] has all its keys under the prefix
    of [g]. *)
Lemma selectionKey_startsWith_nested (g g' f : string) :
  startsWith g' (g +:+ ".") = true →
  startsWith (selectionKey g' f) (g +:+ ".") = true.
Proof.
  intros [t ->]%startsWith_spec. apply startsWith_spec.
  exists (t +:+ "." +:+ f). unfold selectionKey. by rewrite !append_assoc.
Qed.

(** Without a dot in either group id, the prefix test identifies the group. *)
Lemma selectionKey_startsWith_nodot (g g' f : string) :
  hasDot g = false → hasDot g' = false →
  startsWith (selectionKey g' f) (g +:+ ".") = true → g = g'.
Proof.
  unfold selectionKey.
  revert g'. induction g as [|c g IH]; intros g' Hg Hg' Hs.
  - destruct g' as [|d g']; [done |].
    rewrite append_nil, append_cons in Hs.
    simpl in Hg', Hs. case_decide as Hc; [| done]. subst d.
    by rewrite decide_True in Hg'.
  - simpl in Hg. case_decide as Hdot; [done |].
    destruct g' as [|d g'].
    + rewrite append_nil, append_cons in Hs.
      simpl in Hs. case_decide as Hc; [| done]. by subst c.
    + rewrite !append_cons in Hs.
      simpl in Hg'. destruct (decide (d = "."%char)) as [|Hd]; [done |].
      simpl in Hs. destruct (decide (c = d)) as [->|]; [| done].
      f_equal. by apply IH.
Qed.

(** Membership of a key in a concrete selection set is decided by
    evaluation. *)
Lemma not_elem_of_keys (k : string) (keys : gset string) :
  bool_decide (k ∈ keys) = false → k ∉ keys.
Proof. apply bool_decide_eq_false. Qed.

Lemma elem_of_keys (k : string) (keys : gset string) :
  bool_decide (k ∈ keys) = true → k ∈ keys.
Proof. apply bool_decide_eq_true. Qed.

(** ** Loops as folds *)

Section Folds.
Context {A B : Type}.

(** A loop that pushes at most one element per iteration. *)
Lemma foldl_push (h : A → option B) (step : list B → A → list B) :
  (∀ acc x, step acc x = match h x with Some y => acc ++ [y] | None => acc end) →
  ∀ l acc, foldl step acc l = acc ++ omap h l.
Proof.
  intros Hstep l. induction l as [|x l IH]; intros acc; simpl.
  - by rewrite app_nil_r.
  - rewrite IH, Hstep. destruct (h x); simpl; [| done].
    by rewrite <- app_assoc.
Qed.

(** A loop that adds one key per iteration to a set. *)
Lemma foldl_add_keys (h : A → string) (l : list A) (acc : gset string) k :
  k ∈ foldl (λ r a, {[h a]} ∪ r) acc l ↔ k ∈ acc ∨ ∃ a, a ∈ l ∧ k = h a.
Proof.
  revert acc. induction l as [|a l IH]; intros acc; simpl.
  - split; [auto |]. intros [? | (a & Ha & _)]; [done |]. by apply elem_of_nil in Ha.
  - rewrite IH. rewrite elem_of_union, elem_of_singleton. split.
    + intros [[-> | ?] | (a' & ? & ->)]; [right; exists a | by left | right; exists a'];
        split; try done; by constructor.
    + intros [? | (a' & [-> | ?]%elem_of_cons & ->)]; [by left; right | by left; left |].
      right. by exists a'.
Qed.

(** A loop that writes one property per entry of an object. *)
Lemma foldl_insert_entries (g : string → A → B)
    (step : gmap string B → string * A → gmap string B) :
  (∀ acc k v, step acc (k, v) = <[k := g k v]> acc) →
  ∀ (l : list (string * A)) (acc : gmap string B) i,
    NoDup l.*1 →
    foldl step acc l !! i =
      match (list_to_map l : gmap string A) !! i with
      | Some v => Some (g i v)
      | None => acc !! i
      end.
Proof.
  intros Hstep l. induction l as [|[k v] l IH]; intros acc i Hnd.
  - simpl. by rewrite lookup_empty.
  - rewrite fmap_cons in Hnd. apply NoDup_cons in Hnd as [Hk Hnd].
    change (foldl step acc ((k, v) :: l)) with (foldl step (step acc (k, v)) l).
    rewrite list_to_map_cons, IH, Hstep by done.
    destruct (decide (k = i)) as [-> | Hne].
    + rewrite lookup_insert_eq.
      rewrite (not_elem_of_list_to_map_1 l i) by done.
      by rewrite lookup_insert_eq.
    + by rewrite !lookup_insert_ne by done.
Qed.

Lemma foldl_insert_map_to_list (g : string → A → B)
    (step : gmap string B → string * A → gmap string B) (m : gmap string A) i :
  (∀ acc k v, step acc (k, v) = <[k := g k v]> acc) →
  foldl step ∅ (map_to_list m) !! i = g i <$> m !! i.
Proof.
  intros Hstep.
  rewrite (foldl_insert_entries g step Hstep) by apply NoDup_fst_map_to_list.
  rewrite list_to_map_to_list. destruct (m !! i); [done |]. by rewrite lookup_empty.
Qed.
End Folds.

(** A loop that keeps the keys passing a test. *)
Lemma foldl_keep_keys (p : string → bool) (l : list string) (acc : gset string) k :
  k ∈ foldl (λ r x, if p x then {[x]} ∪ r else r) acc l ↔
  k ∈ acc ∨ (k ∈ l ∧ p k = true).
Proof.
  revert acc. induction l as [|a l IH]; intros acc; simpl.
  - split; [auto |]. intros [? | [Ha _]]; [done |]. by apply elem_of_nil in Ha.
  - rewrite IH, elem_of_cons. destruct (p a) eqn:Hp.
    + rewrite elem_of_union, elem_of_singleton. split.
      * intros [[-> | ?] | [? ?]]; auto.
      * intros [? | [[-> | ?] ?]]; auto.
    + split.
      * intros [? | [? ?]]; auto.
      * intros [? | [[-> | ?] ?]]; auto. congruence.
Qed.

(** [Object.fromEntries] over the keys of an object, with a constant value. *)
Lemma fromEntries_keys {A V : Type} (m : gmap string A) (c : V) i :
  fromEntries (map (λ k, (k, c)) (map_to_list m).*1) !! i = (λ _, c) <$> m !! i.
Proof.
  unfold fromEntries. rewrite !foldl_fmap.
  by apply (foldl_insert_map_to_list (λ _ _, c)).
Qed.

(** ** The matching engine *)

Section Engine.
Context {Entity Error : Type}.
Implicit Types (fgs : gmap string (FilterGroup Entity)) (fg : FilterGroup Entity).
Implicit Types (sel : gset string) (fn : Entity → bool) (es : list Entity).
Implicit Types (excl : option string).

Lemma someFn_true (gf : list (Entity → bool)) (e : Entity) :
  someFn gf e = true ↔ ∃ fn, fn ∈ gf ∧ fn e = true.
Proof.
  unfold someFn. rewrite existsb_exists.
  split; intros (fn & Hin & Hfn); exists fn; split; try done;
    by apply list_elem_of_In.
Qed.

Lemma everyFn_true (fns : list (Entity → bool)) (e : Entity) :
  everyFn fns e = true ↔ ∀ fn, fn ∈ fns → fn e = true.
Proof.
  unfold everyFn. rewrite forallb_forall.
  split; intros H fn Hin; apply H; by apply list_elem_of_In.
Qed.

Lemma everyFn_nil (e : Entity) : everyFn [] e = true.
Proof. reflexivity. Qed.

Lemma groupFilters_omap sel gid fg :
  groupFilters sel gid fg =
  omap (λ '(fid, fn), if decide (selectionKey gid fid ∈ sel) then Some fn else None)
       (map_to_list (filters fg)).
Proof.
  unfold groupFilters.
  rewrite (foldl_push
             (λ '(fid, fn), if decide (selectionKey gid fid ∈ sel) then Some fn else None)).
  - done.
  - intros acc [fid fn]. by case_decide.
Qed.

Lemma elem_of_groupFilters sel gid fg fn :
  fn ∈ groupFilters sel gid fg ↔ ∃ fid, selectedFilter sel gid fg fid fn.
Proof.
  rewrite groupFilters_omap, list_elem_of_omap. unfold selectedFilter. split.
  - intros ([fid fn'] & Hin & Hsel). apply elem_of_map_to_list in Hin.
    case_decide; [| done]. simplify_eq. by exists fid.
  - intros (fid & Hlk & Hsel). exists (fid, fn). split.
    + by apply elem_of_map_to_list.
    + by rewrite decide_True.
Qed.

Lemma groupFilters_nonempty sel gid fg :
  groupFilters sel gid fg ≠ [] ↔ hasSelection sel gid fg.
Proof.
  unfold hasSelection. split.
  - destruct (groupFilters sel gid fg) as [|fn gf] eqn:Hgf; [done |]. intros _.
    assert (fn ∈ groupFilters sel gid fg) as Hin by (rewrite Hgf; constructor).
    apply elem_of_groupFilters in Hin as [fid Hfid]. by exists fid, fn.
  - intros (fid & fn & Hsel) Hnil.
    assert (fn ∈ groupFilters sel gid fg) as Hin
      by (apply elem_of_groupFilters; by exists fid).
    rewrite Hnil in Hin. by apply elem_of_nil in Hin.
Qed.

Lemma allFilters_omap fgs sel excl :
  allFilters fgs sel excl =
  omap (λ '(gid, fg),
          if decide (excl = Some gid) then None
          else match length (groupFilters sel gid fg) with
               | O => None
               | S _ => Some (someFn (groupFilters sel gid fg))
               end)
       (map_to_list fgs).
Proof.
  unfold allFilters.
  rewrite (foldl_push
             (λ '(gid, fg),
                if decide (excl = Some gid) then None
                else match length (groupFilters sel gid fg) with
                     | O => None
                     | S _ => Some (someFn (groupFilters sel gid fg))
                     end)).
  - done.
  - intros acc [gid fg]. case_decide; [done |].
    by destruct (length (groupFilters sel gid fg)).
Qed.

Lemma elem_of_allFilters fgs sel excl (p : Entity → bool) :
  p ∈ allFilters fgs sel excl ↔
  ∃ gid fg, fgs !! gid = Some fg ∧ excl ≠ Some gid ∧
            groupFilters sel gid fg ≠ [] ∧ p = someFn (groupFilters sel gid fg).
Proof.
  rewrite allFilters_omap, list_elem_of_omap. split.
  - intros ([gid fg] & Hin & Hp). apply elem_of_map_to_list in Hin.
    case_decide; [done |].
    destruct (groupFilters sel gid fg) as [|fn gf] eqn:Hgf; [done |].
    simpl in Hp. simplify_eq. exists gid, fg. by rewrite Hgf.
  - intros (gid & fg & Hlk & Hex & Hne & ->). exists (gid, fg). split.
    + by apply elem_of_map_to_list.
    + rewrite decide_False by done.
      by destruct (groupFilters sel gid fg).
Qed.

(** The final predicate, group by group. *)
Lemma everyFn_allFilters fgs sel excl (e : Entity) :
  everyFn (allFilters fgs sel excl) e = true ↔
  ∀ gid fg, fgs !! gid = Some fg → excl ≠ Some gid →
    hasSelection sel gid fg →
    ∃ fid fn, selectedFilter sel gid fg fid fn ∧ fn e = true.
Proof.
  rewrite everyFn_true. split.
  - intros H gid fg Hlk Hex Hsel.
    assert (someFn (groupFilters sel gid fg) e = true) as Hsome.
    { apply H, elem_of_allFilters. exists gid, fg.
      by rewrite groupFilters_nonempty. }
    apply someFn_true in Hsome as (fn & Hin & Hfn).
    apply elem_of_groupFilters in Hin as [fid Hfid]. by exists fid, fn.
  - intros H p (gid & fg & Hlk & Hex & Hne & ->)%elem_of_allFilters.
    apply groupFilters_nonempty in Hne.
    destruct (H gid fg Hlk Hex Hne) as (fid & fn & Hsel & Hfn).
    apply someFn_true. exists fn. split; [| done].
    apply elem_of_groupFilters. by exists fid.
Qed.

Lemma filter_sublist (p : Entity → bool) es : List.filter p es `sublist_of` es.
Proof.
  induction es as [|e es IH]; simpl; [constructor |].
  destruct (p e); by constructor.
Qed.

Lemma filter_all (p : Entity → bool) es :
  (∀ e, e ∈ es → p e = true) → List.filter p es = es.
Proof.
  induction es as [|e es IH]; intros H; simpl; [done |].
  rewrite H by constructor. f_equal. apply IH. intros e' He'. apply H. by constructor.
Qed.

(** *** The per-group states *)

Lemma groupStateFilters_lookup sel (other : list Entity) gid fg fid :
  groupStateFilters sel other gid fg !! fid =
  (λ fn, {| isSelected := bool_decide (selectionKey gid fid ∈ sel);
            matchCount := length (List.filter fn other) |}) <$> filters fg !! fid.
Proof.
  unfold groupStateFilters.
  pose proof (foldl_insert_map_to_list (A := Entity → bool) (B := FilterState)
                (λ k f, {| isSelected := bool_decide (selectionKey gid k ∈ sel);
                           matchCount := length (List.filter f other) |})) as H.
  by apply H.
Qed.

Lemma buildStates_error fgs sel (ents : option (list Entity)) (err : Error) gid :
  buildStates fgs sel ents (Some err) !! gid = (λ _, StError err) <$> fgs !! gid.
Proof. unfold buildStates. apply fromEntries_keys. Qed.

Lemma buildStates_loading fgs sel gid :
  buildStates (Error := Error) fgs sel None None !! gid = (λ _, StLoading) <$> fgs !! gid.
Proof. unfold buildStates. apply fromEntries_keys. Qed.

Lemma buildStates_ready fgs sel es gid :
  buildStates (Error := Error) fgs sel (Some es) None !! gid =
  (λ fg, StReady {| state_filters :=
                      groupStateFilters sel
                        (buildMatchingEntities fgs sel (Some es) (Some gid)) gid fg |})
    <$> fgs !! gid.
Proof.
  unfold buildStates.
  pose proof (foldl_insert_map_to_list
                (A := FilterGroup Entity) (B := FilterGroupStates Error)
                (λ k g, StReady {| state_filters :=
                    groupStateFilters sel
                      (buildMatchingEntities fgs sel (Some es) (Some k)) k g |})) as H.
  by apply H.
Qed.

(** Whatever the load result, the state map has the keys of the registry
    it was built from. *)
Lemma buildStates_dom fgs sel (ents : option (list Entity)) (err : option Error) :
  dom (buildStates fgs sel ents err) = dom fgs.
Proof.
  apply set_eq. intros gid. rewrite !elem_of_dom.
  destruct err as [err|]; [| destruct ents as [es|]].
  - rewrite buildStates_error. apply fmap_is_Some.
  - rewrite buildStates_ready. apply fmap_is_Some.
  - rewrite buildStates_loading. apply fmap_is_Some.
Qed.

(** *** Claims on the matching engine *)

(** C2: with the entities present and no group excluded,
    [buildMatchingEntities] returns the input filtered by a predicate that
    holds exactly when every registered group with at least one selected
    filter has a selected filter accepting the entity (OR inside a group,
    AND across groups); groups without a selected filter impose nothing,
    and with no contributing group the predicate holds of every entity. *)
Theorem buildMatchingEntities_or_within_and_across fgs sel es :
  ∃ p : Entity → bool,
    (∀ e, p e = true ↔ specMatches fgs sel e) ∧
    buildMatchingEntities fgs sel (Some es) None = List.filter p es ∧
    (∀ e, e ∈ buildMatchingEntities fgs sel (Some es) None ↔
          e ∈ es ∧ specMatches fgs sel e).
Proof.
  exists (everyFn (allFilters fgs sel None)).
  assert (∀ e, everyFn (allFilters fgs sel None) e = true ↔ specMatches fgs sel e)
    as Hp.
  { intros e. rewrite everyFn_allFilters. unfold specMatches.
    split; intros H gid fg Hlk; [by apply H | intros _; by apply H]. }
  split; [done |]. split; [done |].
  intros e. unfold buildMatchingEntities.
  by rewrite list_elem_of_In, filter_In, <- list_elem_of_In, Hp.
Qed.

(** C3: in the ready state of a registered group G, the entry of each
    filter F of G carries as [matchCount] the number of entities that F
    accepts in the list [buildMatchingEntities] returns with G excluded,
    and as [isSelected] the membership of the key of (G, F) in the
    selection.  That list is the input narrowed by the selections of the
    groups other than G only: an entity is in it exactly when every other
    registered group with a selected filter has a selected filter accepting
    it, whatever G's own filters and selection are. *)
Theorem matchCount_excludes_own_group fgs sel es G fg F fn :
  fgs !! G = Some fg →
  filters fg !! F = Some fn →
  ∃ st (others : Entity → bool),
    buildStates (Error := Error) fgs sel (Some es) None !! G = Some (StReady st) ∧
    (∀ e, others e = true ↔ specMatchesOthers fgs sel G e) ∧
    buildMatchingEntities fgs sel (Some es) (Some G) = List.filter others es ∧
    state_filters st !! F =
      Some {| isSelected := bool_decide (selectionKey G F ∈ sel);
              matchCount := length (List.filter fn (List.filter others es)) |}.
Proof.
  intros HG HF. eexists. exists (everyFn (allFilters fgs sel (Some G))).
  split; [| split; [| split]].
  - rewrite buildStates_ready, HG. reflexivity.
  - intros e. rewrite everyFn_allFilters. unfold specMatchesOthers.
    split; intros H gid fg' Hlk Hne Hsel; apply (H gid fg' Hlk); try done; congruence.
  - reflexivity.
  - cbn [state_filters]. by rewrite groupStateFilters_lookup, HF.
Qed.

(** C4: [buildStates] splits three ways.  With an error set every
    registered group is in the error state carrying that error, whatever
    the entities and the selection; otherwise, without entities, every
    registered group is loading; otherwise every registered group is
    ready.  Groups that are not registered have no state. *)
Theorem buildStates_three_way fgs sel :
  (∀ (ents : option (list Entity)) (err : Error) gid,
     buildStates fgs sel ents (Some err) !! gid = (λ _, StError err) <$> fgs !! gid) ∧
  (∀ gid,
     buildStates (Error := Error) fgs sel None None !! gid =
     (λ _, StLoading) <$> fgs !! gid) ∧
  (∀ es gid,
     buildStates (Error := Error) fgs sel (Some es) None !! gid =
     (λ fg, StReady {| state_filters :=
                         groupStateFilters sel
                           (buildMatchingEntities fgs sel (Some es) (Some gid))
                           gid fg |})
       <$> fgs !! gid).
Proof.
  split; [| split].
  - intros. apply buildStates_error.
  - intros. apply buildStates_loading.
  - intros. apply buildStates_ready.
Qed.

(** C5: without entities [buildMatchingEntities] returns the empty
    sequence; with entities it returns a subsequence of the input, order
    kept, nothing duplicated, every element taken from the input. *)
Theorem buildMatchingEntities_subsequence fgs sel excl :
  buildMatchingEntities fgs sel None excl = [] ∧
  ∀ es,
    buildMatchingEntities fgs sel (Some es) excl `sublist_of` es ∧
    ∀ e, e ∈ buildMatchingEntities fgs sel (Some es) excl → e ∈ es.
Proof.
  split; [done |]. intros es.
  assert (buildMatchingEntities fgs sel (Some es) excl `sublist_of` es) as Hsub
    by apply filter_sublist.
  split; [done |]. intros e He. by eapply elem_of_sublist.
Qed.

(** C6: when the selection holds no key of any filter of any registered
    group, [buildMatchingEntities] returns the input sequence itself. *)
Theorem buildMatchingEntities_no_selection fgs sel es :
  (∀ gid fg fid fn, fgs !! gid = Some fg → filters fg !! fid = Some fn →
                    selectionKey gid fid ∉ sel) →
  buildMatchingEntities fgs sel (Some es) None = es.
Proof.
  intros Hnone. unfold buildMatchingEntities.
  apply filter_all. intros e _. apply everyFn_allFilters.
  intros gid fg Hlk _ (fid & fn & Hfn & Hsel). by destruct (Hnone gid fg fid fn).
Qed.

(** The engine reads the selection only at the keys of registered
    filters. *)
Lemma buildMatchingEntities_ext fgs sel sel' (ents : option (list Entity)) excl :
  (∀ gid fg fid fn, fgs !! gid = Some fg → filters fg !! fid = Some fn →
                    (selectionKey gid fid ∈ sel ↔ selectionKey gid fid ∈ sel')) →
  buildMatchingEntities fgs sel ents excl = buildMatchingEntities fgs sel' ents excl.
Proof.
  intros Hsame. destruct ents as [es|]; [| done]. simpl.
  induction es as [|e es IH]; simpl; [done |].
  assert (everyFn (allFilters fgs sel excl) e = everyFn (allFilters fgs sel' excl) e)
    as ->; [| by rewrite IH].
  assert (∀ s s', (∀ gid fg fid fn, fgs !! gid = Some fg →
                     filters fg !! fid = Some fn →
                     (selectionKey gid fid ∈ s ↔ selectionKey gid fid ∈ s')) →
            everyFn (allFilters fgs s excl) e = true →
            everyFn (allFilters fgs s' excl) e = true) as Hmono.
  { intros s s' Hss. rewrite !everyFn_allFilters. intros H gid fg Hlk Hex Hsel.
    destruct Hsel as (fid0 & fn0 & Hfn0 & Hk0).
    destruct (H gid fg Hlk Hex) as (fid & fn & [Hfn Hk] & Hacc).
    { exists fid0, fn0. split; [done |]. by eapply Hss. }
    exists fid, fn. repeat split; try done. by eapply Hss. }
  destruct (everyFn (allFilters fgs sel excl) e) eqn:H1;
    destruct (everyFn (allFilters fgs sel' excl) e) eqn:H2; try done.
  - rewrite (Hmono sel sel') in H2; [done | done | done].
  - rewrite (Hmono sel' sel) in H1; [done | | done].
    intros. symmetry. by eapply Hsame.
Qed.
End Engine.

(** ** The hook's callbacks *)

Section Hook.
Context {Entity Error : Type}.
Variable entities : option (list Entity).
Variable error : option Error.
Implicit Types (s : Store Entity Error) (fg : FilterGroup Entity).
Implicit Types (c : gmap string (FilterGroup Entity)).
Implicit Types (cur : gset string) (g f k : string).

Lemma registerKeys_spec g (initial : option (list string)) cur k :
  k ∈ registerKeys g initial cur ↔
  k ∈ cur ∨ ∃ f, f ∈ default [] initial ∧ k = selectionKey g f.
Proof.
  unfold registerKeys. destruct initial as [[|f0 ids]|].
  - simpl. split; [auto |]. intros [? | (f & Hf & _)]; [done |].
    by apply elem_of_nil in Hf.
  - apply (foldl_add_keys (selectionKey g) (f0 :: ids)).
  - simpl. split; [auto |]. intros [? | (f & Hf & _)]; [done |].
    by apply elem_of_nil in Hf.
Qed.

Lemma registerKeys_keeps g (initial : option (list string)) cur :
  cur ⊆ registerKeys g initial cur.
Proof. intros k Hk. apply registerKeys_spec. by left. Qed.

(** The two loops of [setGroupSelectedFilters], as a set comprehension. *)
Lemma replaceGroupKeys_spec g (fids : list string) cur k :
  k ∈ replaceGroupKeys g fids cur ↔
  (k ∈ cur ∧ startsWith k (g +:+ ".") = false) ∨
  (∃ f, f ∈ fids ∧ k = selectionKey g f).
Proof.
  unfold replaceGroupKeys.
  rewrite (foldl_add_keys (selectionKey g)).
  rewrite (foldl_keep_keys (λ key, negb (startsWith key (g +:+ ".")))).
  rewrite elem_of_elements, negb_true_iff. split.
  - intros [[Hk | ?] | ?]; [by apply elem_of_empty in Hk | by left | by right].
  - intros [? | ?]; [left; by right | by right].
Qed.

(** What each callback leaves in the four cells. *)
Lemma register_filterGroups c g fg initial s :
  filterGroups (register entities error c g fg initial s) = <[g := fg]> (filterGroups s).
Proof. reflexivity. Qed.

Lemma register_filterGroupStates c g fg initial s :
  filterGroupStates (register entities error c g fg initial s) =
  buildStates c (registerKeys g initial (selectedFilterKeys s)) entities error.
Proof. reflexivity. Qed.

Lemma unregister_filterGroups c g s :
  filterGroups (unregister entities error c g s) = delete g (filterGroups s).
Proof. reflexivity. Qed.

Lemma unregister_filterGroupStates c g s :
  filterGroupStates (unregister entities error c g s) =
  buildStates c (selectedFilterKeys s) entities error.
Proof. reflexivity. Qed.

Lemma unregister_selectedFilterKeys c g s :
  selectedFilterKeys (unregister entities error c g s) = selectedFilterKeys s.
Proof. reflexivity. Qed.

(** The state map published by a callback has the keys of the registry
    the callback was created with. *)
Lemma register_states_dom c g fg initial s :
  dom (filterGroupStates (register entities error c g fg initial s)) = dom c.
Proof. rewrite register_filterGroupStates. apply buildStates_dom. Qed.

Lemma unregister_states_dom c g s :
  dom (filterGroupStates (unregister entities error c g s)) = dom c.
Proof. rewrite unregister_filterGroupStates. apply buildStates_dom. Qed.

(** [setGroupSelectedFilters] keeps the registry, so called alone from its
    render it publishes a state map with the keys of the registry. *)
Lemma setGroupSelectedFilters_states_dom g (fids : list string) s :
  dom (filterGroupStates
         (setGroupSelectedFilters entities error (filterGroups s) g fids s)) =
  dom (filterGroups
         (setGroupSelectedFilters entities error (filterGroups s) g fids s)).
Proof. apply buildStates_dom. Qed.

(** A group in the captured registry keeps a state entry after
    [unregister], and a group that is not in it has none after
    [register]. *)
Lemma unregister_keeps_registered_state c g fg s :
  c !! g = Some fg →
  is_Some (filterGroupStates (unregister entities error c g s) !! g).
Proof.
  intros Hg. apply elem_of_dom. rewrite unregister_states_dom.
  apply elem_of_dom. by eexists.
Qed.

Lemma register_omits_new_state c g fg initial s :
  c !! g = None →
  filterGroupStates (register entities error c g fg initial s) !! g = None.
Proof.
  intros Hg. apply not_elem_of_dom. rewrite register_states_dom.
  by apply not_elem_of_dom.
Qed.

(** Selections survive [unregister] followed by [register]. *)
Lemma reregister_keeps_selection c c' g fg initial s :
  selectedFilterKeys s ⊆
  selectedFilterKeys
    (register entities error c' g fg initial (unregister entities error c g s)).
Proof. apply registerKeys_keeps. Qed.

(** C7, as amended: after [setGroupSelectedFilters g fids], (a) the keys
    starting with [g ++ "."] are exactly the keys of the ids in [fids],
    every other such key being removed; (b) the key of (g, f) is present
    exactly when f is in [fids]; (c) a key that does not start with
    [g ++ "."] is present exactly when it was before, which covers every
    key of every other group as soon as neither group id contains a
    dot. *)
Theorem setGroupSelectedFilters_replaces_prefix c g (fids : list string) s :
  let result := selectedFilterKeys (setGroupSelectedFilters entities error c g fids s) in
  (∀ k, startsWith k (g +:+ ".") = true →
        (k ∈ result ↔ ∃ f, f ∈ fids ∧ k = selectionKey g f)) ∧
  (∀ f, selectionKey g f ∈ result ↔ f ∈ fids) ∧
  (∀ k, startsWith k (g +:+ ".") = false →
        (k ∈ result ↔ k ∈ selectedFilterKeys s)) ∧
  (∀ g' f, g' ≠ g → hasDot g = false → hasDot g' = false →
           (selectionKey g' f ∈ result ↔ selectionKey g' f ∈ selectedFilterKeys s)).
Proof.
  simpl.
  assert (∀ k, startsWith k (g +:+ ".") = false →
               (k ∈ replaceGroupKeys g fids (selectedFilterKeys s) ↔
                k ∈ selectedFilterKeys s)) as Hframe.
  { intros k Hk. rewrite replaceGroupKeys_spec. split.
    - intros [[? _] | (f & _ & ->)]; [done |].
      by rewrite selectionKey_startsWith in Hk.
    - intros ?. by left. }
  split; [| split; [| split]].
  - intros k Hk. rewrite replaceGroupKeys_spec. split.
    + intros [[_ Hno] | ?]; [congruence | done].
    + intros ?. by right.
  - intros f. rewrite replaceGroupKeys_spec. split.
    + intros [[_ Hno] | (f' & Hf' & Heq)].
      * by rewrite selectionKey_startsWith in Hno.
      * by rewrite (selectionKey_inj _ _ _ Heq).
    + intros Hf. right. by exists f.
  - done.
  - intros g' f Hne Hg Hg'. apply Hframe.
    destruct (startsWith (selectionKey g' f) (g +:+ ".")) eqn:Hs; [| done].
    destruct Hne. symmetry. by eapply selectionKey_startsWith_nodot.
Qed.

(** C9: select "x" in "g", unregister "g", register "g" again with a
    group that has no filter "x".  The stale key is still in the selection
    set, and computing the group states from the resulting registry and
    selection, with entities present, gives "g" a ready state with an
    entry for each filter of the new group and none for "x"; when no
    registered group id contains a dot, the matching engine returns what
    it returns without the stale key.  Every step is a total function. *)
Theorem stale_selection_is_ignored c1 c2 c3 g x fg initial s (es : list Entity) :
  filters fg !! x = None →
  let s1 := setGroupSelectedFilters entities error c1 g [x] s in
  let s2 := unregister entities error c2 g s1 in
  let s3 := register entities error c3 g fg initial s2 in
  selectionKey g x ∈ selectedFilterKeys s3 ∧
  (∃ st,
     buildStates (Error := Error) (filterGroups s3) (selectedFilterKeys s3)
       (Some es) None !! g = Some (StReady st) ∧
     state_filters st !! x = None ∧
     dom (state_filters st) = dom (filters fg)) ∧
  (hasDot g = false →
   (∀ g', g' ∈ dom (filterGroups s) → hasDot g' = false) →
   ∀ excl,
     buildMatchingEntities (filterGroups s3) (selectedFilterKeys s3) (Some es) excl =
     buildMatchingEntities (filterGroups s3)
       (selectedFilterKeys s3 ∖ {[selectionKey g x]}) (Some es) excl).
Proof.
  intros Hx s1 s2 s3.
  assert (filterGroups s3 = <[g := fg]> (delete g (filterGroups s))) as Hreg
    by reflexivity.
  split; [| split].
  - apply reregister_keeps_selection. simpl.
    apply replaceGroupKeys_spec. right. exists x. split; [constructor | done].
  - eexists. split; [| split].
    + rewrite buildStates_ready, Hreg, lookup_insert_eq. reflexivity.
    + cbn [state_filters]. by rewrite groupStateFilters_lookup, Hx.
    + cbn [state_filters]. apply set_eq. intros fid.
      rewrite !elem_of_dom, groupStateFilters_lookup. apply fmap_is_Some.
  - intros Hg Hdots excl. apply buildMatchingEntities_ext.
    intros gid fg' fid fn Hlk Hfn.
    rewrite elem_of_difference, elem_of_singleton.
    split; [| by intros [? _]]. intros Hin. split; [done |]. intros Heq.
    rewrite Hreg in Hlk. destruct (decide (g = gid)) as [<- | Hne].
    + rewrite lookup_insert_eq in Hlk. injection Hlk as <-.
      apply selectionKey_inj in Heq. subst fid. congruence.
    + rewrite lookup_insert_ne, lookup_delete_ne in Hlk by done.
      destruct Hne. apply (selectionKey_startsWith_nodot g gid fid); [done | |].
      * apply Hdots, elem_of_dom. by eexists.
      * rewrite Heq. apply selectionKey_startsWith.
Qed.

(** C10: the key of ("a", "b.x") is the key of ("a.b", "x") although the
    pairs differ.  Hence selecting "b.x" in group "a" puts the key of
    ("a.b", "x") in the selection; the two filters are reported with the
    same [isSelected] flag by [buildStates]; and clearing the selection of
    "a" removes every key of every group whose id starts with "a.". *)
Theorem selectionKey_not_injective :
  selectionKey "a" "b.x" = selectionKey "a.b" "x" ∧
  ("a", "b.x") ≠ ("a.b", "x") ∧
  (∀ c s, selectionKey "a.b" "x" ∈
            selectedFilterKeys (setGroupSelectedFilters entities error c "a" ["b.x"] s)) ∧
  (∀ (fgs : gmap string (FilterGroup Entity)) (sel : gset string) es ga gab fa fab,
     fgs !! "a" = Some ga → filters ga !! "b.x" = Some fa →
     fgs !! "a.b" = Some gab → filters gab !! "x" = Some fab →
     ∃ sta stab, 
       buildStates (Error := Error) fgs sel (Some es) None !! "a" = Some (StReady sta) ∧
       buildStates (Error := Error) fgs sel (Some es) None !! "a.b" = Some (StReady stab) ∧
       isSelected <$> state_filters sta !! "b.x" = Some (bool_decide ("a.b.x" ∈ sel)) ∧
       isSelected <$> state_filters stab !! "x" = Some (bool_decide ("a.b.x" ∈ sel)) ∧
       ("a.b.x" ∈ sel →
        fa ∈ groupFilters sel "a" ga ∧ fab ∈ groupFilters sel "a.b" gab)) ∧
  (∀ c s g' f, startsWith g' "a." = true →
               selectionKey g' f ∉
                 selectedFilterKeys (setGroupSelectedFilters entities error c "a" [] s)).
Proof.
  split; [reflexivity |]. split; [done |]. split; [| split].
  - intros c s. simpl. apply replaceGroupKeys_spec. right.
    exists "b.x". split; [constructor | reflexivity].
  - intros fgs sel es ga gab fa fab Ha Hfa Hab Hfab.
    do 2 eexists. split; [| split; [| split; [| split]]].
    + rewrite buildStates_ready, Ha. reflexivity.
    + rewrite buildStates_ready, Hab. reflexivity.
    + cbn [state_filters]. by rewrite groupStateFilters_lookup, Hfa.
    + cbn [state_filters]. by rewrite groupStateFilters_lookup, Hfab.
    + intros Hsel. split; apply elem_of_groupFilters.
      * by exists "b.x".
      * by exists "x".
  - intros c s g' f Hg'. simpl. rewrite replaceGroupKeys_spec.
    intros [[_ Hno] | (f' & Hf' & _)].
    + by rewrite (selectionKey_startsWith_nested "a" g' f Hg') in Hno.
    + by apply elem_of_nil in Hf'.
Qed.
End Hook.

(** ** The callbacks on the sample data *)

(** C1 (the code at the failing input): starting from the empty store with
    the entities loaded, [register "G1"] leaves a registry with the single
    key "G1" and publishes a state map without keys; the following
    [unregister "G1"] leaves an empty registry and publishes a state map
    with the key "G1".  Each callback is the only one called from its
    render, so it has captured the registry of the store it is applied
    to. *)
Theorem register_unregister_publish_stale_keys :
  let s0 : Store SampleEntity unit := emptyStore in
  let s1 := register (Some sampleEntities) None (filterGroups s0) "G1" G1 None s0 in
  let s2 := unregister (Some sampleEntities) None (filterGroups s1) "G1" s1 in
  dom (filterGroups s1) = {["G1"]} ∧ dom (filterGroupStates s1) = ∅ ∧
  dom (filterGroups s2) = ∅ ∧ dom (filterGroupStates s2) = {["G1"]}.
Proof.
  intros s0 s1 s2.
  assert (dom (filterGroups s1) = {["G1"]}) as H1.
  { unfold s1. rewrite register_filterGroups. unfold s0. simpl.
    by rewrite insert_empty, dom_singleton_L. }
  split; [| split; [| split]].
  - done.
  - unfold s1. rewrite register_states_dom. unfold s0. simpl. apply dom_empty_L.
  - unfold s2. rewrite unregister_filterGroups. unfold s1.
    rewrite register_filterGroups. unfold s0. simpl.
    by rewrite insert_empty, delete_singleton_eq, dom_empty_L.
  - unfold s2. by rewrite unregister_states_dom.
Qed.

(** C8 (the code at the failing input): register "G1" with "f1" selected,
    then unregister it, each callback being the only one called from its
    render.  The registry loses "G1" and the selection set is the same, the
    key of ("G1", "f1") included, but the published state map holds a ready
    state for "G1". *)
Theorem unregister_keeps_state_entry :
  let s0 : Store SampleEntity unit := emptyStore in
  let s1 :=
    register (Some sampleEntities) None (filterGroups s0) "G1" G1 (Some ["f1"]) s0 in
  let s2 := unregister (Some sampleEntities) None (filterGroups s1) "G1" s1 in
  filterGroups s1 !! "G1" = Some G1 ∧
  filterGroups s2 !! "G1" = None ∧
  selectedFilterKeys s2 = selectedFilterKeys s1 ∧
  "G1.f1" ∈ selectedFilterKeys s2 ∧
  (∃ st, filterGroupStates s2 !! "G1" = Some (StReady st)).
Proof.
  intros s0 s1 s2. split; [| split; [| split; [| split]]].
  - unfold s1. rewrite register_filterGroups. apply lookup_insert_eq.
  - unfold s2. rewrite unregister_filterGroups. apply lookup_delete_eq.
  - reflexivity.
  - unfold s2. rewrite unregister_selectedFilterKeys.
    apply (registerKeys_spec "G1" (Some ["f1"]) ∅). right.
    exists "f1". split; [constructor | reflexivity].
  - unfold s2. rewrite unregister_filterGroupStates, buildStates_ready.
    unfold s1. rewrite register_filterGroups, lookup_insert_eq. by eexists.
Qed.

(** Two groups registered from one render: both callbacks have captured
    the empty registry, so the registry state ends with both groups while
    the published state map is empty and the published list is the whole
    input, the initial selection of "G1" notwithstanding. *)
Example batched_registers_publish_captured_registry :
  let s0 : Store SampleEntity unit := emptyStore in
  let s1 := register (Some sampleEntities) None ∅ "G1" G1 (Some ["f1"]) s0 in
  let s2 := register (Some sampleEntities) None ∅ "G2" G2 None s1 in
  dom (filterGroups s2) = ({["G1"; "G2"]} : gset string) ∧
  filterGroupStates s2 = ∅ ∧
  matchingEntities s2 = sampleEntities.
Proof.
  intros s0 s1 s2. split; [| split].
  - unfold s2, s1. rewrite !register_filterGroups. unfold s0. simpl.
    rewrite !dom_insert_L, dom_empty_L. set_solver.
  - unfold s2. rewrite register_filterGroupStates. apply map_eq. intros gid.
    by rewrite buildStates_ready, !lookup_empty.
  - vm_compute. reflexivity.
Qed.

(** ** The scenario of the design document *)

Example scenario_no_selection :
  buildMatchingEntities sampleRegistry ∅ (Some sampleEntities) None = [e1; e2; e3].
Proof. vm_compute. reflexivity. Qed.

Example scenario_select_f1 :
  buildMatchingEntities sampleRegistry {["G1.f1"]} (Some sampleEntities) None = [e1; e3].
Proof. vm_compute. reflexivity. Qed.

Example scenario_select_f1_f2 :
  buildMatchingEntities sampleRegistry ({["G1.f1"; "G2.f2"]} : gset string)
    (Some sampleEntities) None = [e3].
Proof. vm_compute. reflexivity. Qed.

Example scenario_matchCount_f1 :
  readyState (buildStates (Error := unit) sampleRegistry {["G2.f2"]}
                (Some sampleEntities) None) "G1"
    ≫= (λ st, state_filters st !! "f1") =
  Some {| isSelected := false; matchCount := 1 |}.
Proof. vm_compute. reflexivity. Qed.

(** The count of a filter is not taken against the globally filtered list:
    with "fa" selected, "fb" still counts the entity tagged "b". *)
Example matchCount_not_global :
  let registry : gmap string (FilterGroup SampleEntity) := {[ "T" := GTag ]} in
  let sel : gset string := {[ "T.fa" ]} in
  readyState (buildStates (Error := unit) registry sel (Some sampleEntities) None) "T"
    ≫= (λ st, state_filters st !! "fb") =
  Some {| isSelected := false; matchCount := 1 |} ∧
  length (List.filter (tagIs "b")
            (buildMatchingEntities registry sel (Some sampleEntities) None)) = 0.
Proof. split; vm_compute; reflexivity. Qed.

(** In the dotted registry one key selects a filter in both groups. *)
Example dotted_key_selects_both :
  buildMatchingEntities dottedRegistry {["a.b.x"]} (Some sampleEntities) None = [].
Proof. vm_compute. reflexivity. Qed.

(** ** Instances of the theorems with hypotheses *)

Lemma matchCount_excludes_own_group_witness :
  sampleRegistry !! "G1" = Some G1 ∧
  filters G1 !! "f1" = Some (tagIs "a") ∧
  ∃ st (others : SampleEntity → bool),
    buildStates (Error := unit) sampleRegistry ({["G1.f1"; "G2.f2"]} : gset string)
      (Some sampleEntities) None !! "G1" = Some (StReady st) ∧
    (∀ e, others e = true ↔
          specMatchesOthers sampleRegistry ({["G1.f1"; "G2.f2"]} : gset string) "G1" e) ∧
    buildMatchingEntities sampleRegistry ({["G1.f1"; "G2.f2"]} : gset string)
      (Some sampleEntities) (Some "G1") = List.filter others sampleEntities ∧
    state_filters st !! "f1" =
      Some {| isSelected :=
                bool_decide (selectionKey "G1" "f1" ∈
                               ({["G1.f1"; "G2.f2"]} : gset string));
              matchCount :=
                length (List.filter (tagIs "a") (List.filter others sampleEntities)) |}.
Proof.
  assert (sampleRegistry !! "G1" = Some G1) as HG by reflexivity.
  assert (filters G1 !! "f1" = Some (tagIs "a")) as HF by reflexivity.
  split; [exact HG |]. split; [exact HF |].
  exact (matchCount_excludes_own_group (Error := unit)
           sampleRegistry ({["G1.f1"; "G2.f2"]} : gset string) sampleEntities
           "G1" G1 "f1" (tagIs "a") HG HF).
Defined.

Lemma buildMatchingEntities_no_selection_witness :
  (∀ gid fg fid fn, sampleRegistry !! gid = Some fg → filters fg !! fid = Some fn →
                    selectionKey gid fid ∉ ({["G1.zz"; "G3.f1"]} : gset string)) ∧
  buildMatchingEntities sampleRegistry ({["G1.zz"; "G3.f1"]} : gset string)
    (Some sampleEntities) None = sampleEntities.
Proof.
  assert (∀ gid fg fid fn, sampleRegistry !! gid = Some fg →
            filters fg !! fid = Some fn →
            selectionKey gid fid ∉ ({["G1.zz"; "G3.f1"]} : gset string)) as Hnone.
  { intros gid fg fid fn Hg Hf. unfold sampleRegistry in Hg.
    apply lookup_insert_Some in Hg as [[<- <-] | [_ Hg]].
    - unfold G1 in Hf. cbn [filters] in Hf.
      apply lookup_singleton_Some in Hf as [<- _].
      apply not_elem_of_keys. vm_compute. reflexivity.
    - apply lookup_singleton_Some in Hg as [<- <-].
      unfold G2 in Hf. cbn [filters] in Hf.
      apply lookup_singleton_Some in Hf as [<- _].
      apply not_elem_of_keys. vm_compute. reflexivity. }
  split; [exact Hnone |].
  exact (buildMatchingEntities_no_selection sampleRegistry _ sampleEntities Hnone).
Defined.

(** C7 (counterexample to the claim as stated): with the groups "a" and
    "a.b" registered and "x" selected in "a.b", the key of ("a.b", "x")
    belongs to a group other than "a"; it is selected before
    [setGroupSelectedFilters "a" []] and not after. *)
Lemma setGroupSelectedFilters_other_group_counterexample :
  let s := dottedStore in
  let result :=
    selectedFilterKeys
      (setGroupSelectedFilters (Some sampleEntities) None (filterGroups s) "a" [] s) in
  "a.b" ≠ "a" ∧
  is_Some (filterGroups s !! "a") ∧ is_Some (filterGroups s !! "a.b") ∧
  selectionKey "a.b" "x" ∈ selectedFilterKeys s ∧
  selectionKey "a.b" "x" ∉ result.
Proof.
  split; [done |]. split; [by eexists |]. split; [by eexists |]. split.
  - apply elem_of_keys. vm_compute. reflexivity.
  - apply not_elem_of_keys. vm_compute. reflexivity.
Qed.

Lemma setGroupSelectedFilters_replaces_prefix_witness :
  let s := storeOfKeys ({["a.y"; "c.d"]} : gset string) in
  let result :=
    selectedFilterKeys (setGroupSelectedFilters None None ∅ "a" ["z"; "z"] s) in
  (startsWith "a.y" "a." = true ∧ "a.y" ∉ result) ∧
  (selectionKey "a" "z" ∈ result) ∧
  (startsWith "c.d" "a." = false ∧ "c.d" ∈ result) ∧
  ("c" ≠ "a" ∧ hasDot "a" = false ∧ hasDot "c" = false ∧ selectionKey "c" "d" ∈ result).
Proof.
  destruct (setGroupSelectedFilters_replaces_prefix
              (Entity := SampleEntity) (Error := unit) None None
              ∅ "a" ["z"; "z"] (storeOfKeys ({["a.y"; "c.d"]} : gset string)))
    as (Ha & Hb & Hc & Hd).
  assert (startsWith "a.y" "a." = true) as H1 by reflexivity.
  assert (startsWith "c.d" "a." = false) as H2 by reflexivity.
  assert (("c.d" : string) ∈ ({["a.y"; "c.d"]} : gset string)) as H3
    by (apply elem_of_keys; vm_compute; reflexivity).
  split; [| split; [| split]].
  - split; [exact H1 |]. intros Hin. apply (Ha "a.y" H1) in Hin as (f & Hf & Heq).
    apply (selectionKey_inj "a" "y" f) in Heq. subst f.
    apply elem_of_cons in Hf as [Hf | Hf]; [discriminate |].
    apply elem_of_cons in Hf as [Hf | Hf]; [discriminate |].
    by apply elem_of_nil in Hf.
  - apply Hb. constructor.
  - split; [exact H2 |]. by apply (Hc "c.d" H2).
  - split; [done |]. split; [reflexivity |]. split; [reflexivity |].
    by apply (Hd "c" "d").
Defined.

Lemma stale_selection_is_ignored_witness :
  let s : Store SampleEntity unit :=
    register (Some sampleEntities) None ∅ "G2" G2 None emptyStore in
  let s1 :=
    setGroupSelectedFilters (Some sampleEntities) None (filterGroups s) "g" ["x"] s in
  let s2 := unregister (Some sampleEntities) None (filterGroups s1) "g" s1 in
  let s3 := register (Some sampleEntities) None (filterGroups s2) "g" G1 None s2 in
  filters G1 !! "x" = None ∧
  "g.x" ∈ selectedFilterKeys s3 ∧
  (∃ st,
     buildStates (Error := unit) (filterGroups s3) (selectedFilterKeys s3)
       (Some sampleEntities) None !! "g" = Some (StReady st) ∧
     state_filters st !! "x" = None) ∧
  buildMatchingEntities (filterGroups s3) (selectedFilterKeys s3)
    (Some sampleEntities) None =
  buildMatchingEntities (filterGroups s3) (selectedFilterKeys s3 ∖ {["g.x"]})
    (Some sampleEntities) None.
Proof.
  intros s s1 s2 s3.
  assert (filters G1 !! "x" = None) as Hx by reflexivity.
  destruct (stale_selection_is_ignored (Error := unit)
              (Some sampleEntities) None
              (filterGroups s)
              (filterGroups
                 (setGroupSelectedFilters (Some sampleEntities) None
                    (filterGroups s) "g" ["x"] s))
              (filterGroups
                 (unregister (Some sampleEntities) None
                    (filterGroups
                       (setGroupSelectedFilters (Some sampleEntities) None
                          (filterGroups s) "g" ["x"] s))
                    "g"
                    (setGroupSelectedFilters (Some sampleEntities) None
                       (filterGroups s) "g" ["x"] s)))
              "g" "x" G1 None s sampleEntities Hx)
    as (Hkey & (st & Hst & Hnone & _) & Hsame).
  split; [exact Hx |]. split; [exact Hkey |]. split; [by exists st |].
  apply Hsame; [reflexivity |].
  intros g' Hg'. unfold s in Hg'. rewrite register_filterGroups in Hg'.
  change (filterGroups emptyStore) with (∅ : gmap string (FilterGroup SampleEntity)) in Hg'.
  rewrite insert_empty, dom_singleton_L in Hg'.
  apply elem_of_singleton in Hg'. by subst g'.
Defined.

Lemma selectionKey_not_injective_witness :
  dottedRegistry !! "a" = Some GA ∧ filters GA !! "b.x" = Some (tagIs "a") ∧
  dottedRegistry !! "a.b" = Some GAB ∧ filters GAB !! "x" = Some (tagIs "b") ∧
  (∃ sta stab,
     buildStates (Error := unit) dottedRegistry {["a.b.x"]} (Some sampleEntities) None
       !! "a" = Some (StReady sta) ∧
     buildStates (Error := unit) dottedRegistry {["a.b.x"]} (Some sampleEntities) None
       !! "a.b" = Some (StReady stab) ∧
     isSelected <$> state_filters sta !! "b.x" = Some true ∧
     isSelected <$> state_filters stab !! "x" = Some true) ∧
  startsWith "a.b" "a." = true ∧
  selectionKey "a.b" "x" ∉
    selectedFilterKeys
      (setGroupSelectedFilters None None ∅ "a" [] (storeOfKeys {["a.b.x"]})).
Proof.
  destruct (selectionKey_not_injective (Entity := SampleEntity) (Error := unit) None None)
    as (_ & _ & _ & Hboth & Hclear).
  assert (dottedRegistry !! "a" = Some GA) as H1 by reflexivity.
  assert (filters GA !! "b.x" = Some (tagIs "a")) as H2 by reflexivity.
  assert (dottedRegistry !! "a.b" = Some GAB) as H3 by reflexivity.
  assert (filters GAB !! "x" = Some (tagIs "b")) as H4 by reflexivity.
  assert (startsWith "a.b" "a." = true) as H5 by reflexivity.
  split; [exact H1 |]. split; [exact H2 |]. split; [exact H3 |]. split; [exact H4 |].
  split.
  - destruct (Hboth dottedRegistry {["a.b.x"]} sampleEntities GA GAB
                (tagIs "a") (tagIs "b") H1 H2 H3 H4)
      as (sta & stab & Ha & Hab & Hsa & Hsab & _).
    exists sta, stab. split; [exact Ha |]. split; [exact Hab |].
    split; [exact Hsa | exact Hsab].
  - split; [exact H5 |]. exact (Hclear ∅ (storeOfKeys {["a.b.x"]}) "a.b" "x" H5).
Defined.

(** * Further properties of the engine and the callbacks *)

(** ** How excluding a group composes with the rest *)

Section Composition.
Context {Entity Error : Type}.
Implicit Types (fgs : gmap string (FilterGroup Entity)) (fg : FilterGroup Entity).
Implicit Types (sel : gset string) (fn : Entity → bool) (es : list Entity).
Implicit Types (g f : string).

Lemma filter_pointwise (p q : Entity → bool) es :
  (∀ e, p e = q e) → List.filter p es = List.filter q es.
Proof.
  intros Hpq. induction es as [|e es IH]; simpl; [done |].
  by rewrite Hpq, IH.
Qed.

Lemma filter_filter_andb (p q : Entity → bool) es :
  List.filter q (List.filter p es) = List.filter (λ e, p e && q e) es.
Proof.
  induction es as [|e es IH]; simpl; [done |].
  destruct (p e); simpl; [| done]. destruct (q e); by rewrite IH.
Qed.

Lemma filter_sublist_mono (p : Entity → bool) (l1 l2 : list Entity) :
  l1 `sublist_of` l2 → List.filter p l1 `sublist_of` List.filter p l2.
Proof.
  induction 1 as [|x l1 l2 _ IH|x l1 l2 _ IH]; simpl.
  - constructor.
  - destruct (p x); [by constructor | done].
  - destruct (p x); [by constructor | done].
Qed.

Lemma groupAccepts_true sel g fg (e : Entity) :
  groupAccepts sel g fg e = true ↔
  (hasSelection sel g fg →
   ∃ fid fn, selectedFilter sel g fg fid fn ∧ fn e = true).
Proof.
  unfold groupAccepts.
  destruct (groupFilters sel g fg) as [|fn0 gf] eqn:Hgf.
  - split; [| done]. intros _ Hsel. apply groupFilters_nonempty in Hsel. congruence.
  - rewrite <- Hgf, someFn_true. split.
    + intros (fn & [fid Hfid]%elem_of_groupFilters & Hfn) _. by exists fid, fn.
    + intros H. destruct H as (fid & fn & Hsel & Hfn).
      * apply groupFilters_nonempty. by rewrite Hgf.
      * exists fn. split; [| done]. apply elem_of_groupFilters. by exists fid.
Qed.

(** Skipping a group in the loop is the same as not having it. *)
Lemma everyFn_exclude_delete fgs sel g (e : Entity) :
  everyFn (allFilters fgs sel (Some g)) e =
  everyFn (allFilters (delete g fgs) sel None) e.
Proof.
  apply eq_true_iff_eq. rewrite !everyFn_allFilters.
  split; intros H gid fg Hlk Hex Hsel.
  - apply lookup_delete_Some in Hlk as [Hne Hlk].
    apply H; [done | congruence | done].
  - apply H; [| done | done]. apply lookup_delete_Some. split; [congruence | done].
Qed.

(** The final predicate is the one with a group skipped, and that group's
    own demand. *)
Lemma everyFn_split_group fgs sel g fg (e : Entity) :
  fgs !! g = Some fg →
  everyFn (allFilters fgs sel None) e =
  everyFn (allFilters fgs sel (Some g)) e && groupAccepts sel g fg e.
Proof.
  intros Hg. apply eq_true_iff_eq.
  rewrite andb_true_iff, groupAccepts_true, !everyFn_allFilters. split.
  - intros H. split.
    + intros gid fg' Hlk _ Hsel. by apply H.
    + intros Hsel. by apply (H g fg).
  - intros [Hothers Hown] gid fg' Hlk _ Hsel.
    destruct (decide (g = gid)) as [<- | Hne].
    + rewrite Hg in Hlk. injection Hlk as <-. by apply Hown.
    + apply Hothers; [done | congruence | done].
Qed.

Lemma buildMatchingEntities_exclude_delete fgs sel (ents : option (list Entity)) g :
  buildMatchingEntities fgs sel ents (Some g) =
  buildMatchingEntities (delete g fgs) sel ents None.
Proof.
  destruct ents as [es|]; [| done]. simpl.
  apply filter_pointwise. intros e. apply everyFn_exclude_delete.
Qed.

Lemma buildMatchingEntities_split_group fgs sel es g fg :
  fgs !! g = Some fg →
  buildMatchingEntities fgs sel (Some es) None =
  List.filter (groupAccepts sel g fg)
    (buildMatchingEntities fgs sel (Some es) (Some g)).
Proof.
  intros Hg. simpl. rewrite filter_filter_andb.
  apply filter_pointwise. intros e. by apply everyFn_split_group.
Qed.

Lemma buildMatchingEntities_exclude_unregistered fgs sel
    (ents : option (list Entity)) g :
  fgs !! g = None →
  buildMatchingEntities fgs sel ents (Some g) = buildMatchingEntities fgs sel ents None.
Proof.
  intros Hg. rewrite buildMatchingEntities_exclude_delete.
  by rewrite delete_id.
Qed.

Lemma buildMatchingEntities_global_sublist fgs sel (ents : option (list Entity)) g :
  buildMatchingEntities fgs sel ents None `sublist_of`
  buildMatchingEntities fgs sel ents (Some g).
Proof.
  destruct ents as [es|]; [| done].
  destruct (fgs !! g) as [fg|] eqn:Hg.
  - rewrite (buildMatchingEntities_split_group fgs sel es g fg Hg).
    apply filter_sublist.
  - by rewrite buildMatchingEntities_exclude_unregistered.
Qed.

(** X1: calling [buildMatchingEntities] with a group excluded gives the
    list it gives, with nothing excluded, on the registry from which that
    group is deleted, under the same selection set. *)
Theorem exclude_group_is_delete_group fgs sel (ents : option (list Entity)) g :
  buildMatchingEntities fgs sel ents (Some g) =
  buildMatchingEntities (delete g fgs) sel ents None.
Proof. apply buildMatchingEntities_exclude_delete. Qed.

(** X2: excluding a group id that is not registered excludes nothing. *)
Theorem exclude_unregistered_group fgs sel (ents : option (list Entity)) g :
  fgs !! g = None →
  buildMatchingEntities fgs sel ents (Some g) = buildMatchingEntities fgs sel ents None.
Proof. apply buildMatchingEntities_exclude_unregistered. Qed.

(** X3: the globally matching list is obtained from the list computed with
    a registered group G excluded by keeping the entities G accepts: all of
    them when G has no selected filter, otherwise those accepted by at least
    one selected filter of G. *)
Theorem global_list_from_context_list fgs sel es g fg :
  fgs !! g = Some fg →
  buildMatchingEntities fgs sel (Some es) None =
    List.filter (groupAccepts sel g fg)
      (buildMatchingEntities fgs sel (Some es) (Some g)) ∧
  (∀ e, groupAccepts sel g fg e = true ↔
        (hasSelection sel g fg →
         ∃ fid fn, selectedFilter sel g fg fid fn ∧ fn e = true)) ∧
  (¬ hasSelection sel g fg →
   buildMatchingEntities fgs sel (Some es) None =
   buildMatchingEntities fgs sel (Some es) (Some g)).
Proof.
  intros Hg. split; [by apply buildMatchingEntities_split_group |].
  split; [intros e; apply groupAccepts_true |].
  intros Hno. rewrite (buildMatchingEntities_split_group fgs sel es g fg Hg).
  apply filter_all. intros e _. apply groupAccepts_true. intros Hsel. by destruct Hno.
Qed.

(** X4: excluding a group only relaxes: the globally matching list is a
    subsequence of the list computed with any group excluded. *)
Theorem global_list_sublist_of_context_list fgs sel (ents : option (list Entity)) g :
  buildMatchingEntities fgs sel ents None `sublist_of`
  buildMatchingEntities fgs sel ents (Some g).
Proof. apply buildMatchingEntities_global_sublist. Qed.

(** X5: in a ready state, the count reported for a filter F of a group G
    lies between the number of globally matching entities F accepts and the
    number of entities loaded. *)
Theorem matchCount_bounds fgs sel es g fg f fn st entry :
  fgs !! g = Some fg →
  filters fg !! f = Some fn →
  buildStates (Error := Error) fgs sel (Some es) None !! g = Some (StReady st) →
  state_filters st !! f = Some entry →
  length (List.filter fn (buildMatchingEntities fgs sel (Some es) None))
    ≤ matchCount entry ∧
  matchCount entry ≤ length es.
Proof.
  intros Hg Hf Hst Hentry.
  rewrite buildStates_ready, Hg in Hst. injection Hst as <-.
  cbn [state_filters] in Hentry.
  rewrite groupStateFilters_lookup, Hf in Hentry. injection Hentry as <-.
  cbn [matchCount]. split.
  - apply sublist_length, filter_sublist_mono.
    apply (buildMatchingEntities_global_sublist fgs sel (Some es) g).
  - apply sublist_length. etrans; [apply filter_sublist |]. apply filter_sublist.
Qed.
End Composition.

(** ** The callbacks, continued *)

Section Callbacks.
Context {Entity Error : Type}.
Variable entities : option (list Entity).
Variable error : option Error.
Implicit Types (s : Store Entity Error) (fg : FilterGroup Entity).
Implicit Types (fgs c : gmap string (FilterGroup Entity)) (fn : Entity → bool).
Implicit Types (cur sel : gset string) (g f k : string) (es : list Entity).

(** After [setGroupSelectedFilters g [f]], a group registered as [g] that
    has the filter [f] accepts what [f] accepts. *)
Lemma groupAccepts_single g f fg fn cur (e : Entity) :
  filters fg !! f = Some fn →
  groupAccepts (replaceGroupKeys g [f] cur) g fg e = fn e.
Proof.
  intros Hf. apply eq_true_iff_eq. rewrite groupAccepts_true.
  assert (selectionKey g f ∈ replaceGroupKeys g [f] cur) as Hin.
  { apply replaceGroupKeys_spec. right. exists f. split; [constructor | done]. }
  split.
  - intros H. destruct H as (fid & fn' & [Hfn' Hk] & Hacc).
    { exists f, fn. by split. }
    apply replaceGroupKeys_spec in Hk as [[_ Hno] | (f' & Hf' & Heq)].
    + by rewrite selectionKey_startsWith in Hno.
    + apply list_elem_of_singleton in Hf'. subst f'.
      apply selectionKey_inj in Heq. subst fid. congruence.
  - intros Hacc _. exists f, fn. by repeat split.
Qed.

Lemma replaceGroupKeys_overwrite g (fids1 fids2 : list string) cur :
  replaceGroupKeys g fids2 (replaceGroupKeys g fids1 cur) = replaceGroupKeys g fids2 cur.
Proof.
  apply set_eq. intros k. rewrite !replaceGroupKeys_spec. split.
  - intros [[[[? ?] | (f & _ & ->)] Hno] | ?]; [by left | | by right].
    by rewrite selectionKey_startsWith in Hno.
  - intros [[? ?] | ?]; [left | by right]. split; [by left | done].
Qed.

Lemma replaceGroupKeys_commute g1 g2 (fids1 fids2 : list string) cur :
  g1 ≠ g2 → hasDot g1 = false → hasDot g2 = false →
  replaceGroupKeys g1 fids1 (replaceGroupKeys g2 fids2 cur) =
  replaceGroupKeys g2 fids2 (replaceGroupKeys g1 fids1 cur).
Proof.
  intros Hne H1 H2.
  assert (∀ ga gb fa, ga ≠ gb → hasDot ga = false → hasDot gb = false →
                      startsWith (selectionKey ga fa) (gb +:+ ".") = false) as Hother.
  { intros ga gb fa Hab Ha Hb.
    destruct (startsWith (selectionKey ga fa) (gb +:+ ".")) eqn:Hs; [| done].
    destruct Hab. symmetry. by eapply selectionKey_startsWith_nodot. }
  apply set_eq. intros k. rewrite !replaceGroupKeys_spec. split.
  - intros [[[[? ?] | (f & ? & ->)] Hno] | (f & ? & ->)].
    + left. split; [by left | done].
    + by right; exists f.
    + left. split; [right; by exists f | by apply Hother].
  - intros [[[[? ?] | (f & ? & ->)] Hno] | (f & ? & ->)].
    + left. split; [by left | done].
    + by right; exists f.
    + left. split; [right; by exists f | by apply Hother].
Qed.

(** What [setGroupSelectedFilters] leaves depends on the store only through
    its registry and the keys the call computes. *)
Lemma setGroupSelectedFilters_eq c g (fids : list string) s s' :
  filterGroups s = filterGroups s' →
  replaceGroupKeys g fids (selectedFilterKeys s) =
  replaceGroupKeys g fids (selectedFilterKeys s') →
  setGroupSelectedFilters entities error c g fids s =
  setGroupSelectedFilters entities error c g fids s'.
Proof.
  intros Hreg Hkeys. unfold setGroupSelectedFilters. by rewrite Hreg, Hkeys.
Qed.

(** X6: select exactly one filter F of a group G, with the entities loaded
    and no error, through a callback whose captured registry holds G with
    the filter F; the registry state of the store may hold other updates
    still pending.  The state published for G is ready, F is reported
    selected, and the count reported for F is the length of the published
    list of matching entities. *)
Theorem single_selection_count_is_list_length c g f fg fn s es :
  c !! g = Some fg →
  filters fg !! f = Some fn →
  let s' := setGroupSelectedFilters (Some es) (None : option Error) c g [f] s in
  ∃ st entry,
    filterGroupStates s' !! g = Some (StReady st) ∧
    state_filters st !! f = Some entry ∧
    isSelected entry = true ∧
    matchCount entry = length (matchingEntities s').
Proof.
  intros Hg Hf s'. do 2 eexists. split; [| split; [| split]].
  - change (filterGroupStates s') with
      (buildStates (Error := Error) c
         (replaceGroupKeys g [f] (selectedFilterKeys s)) (Some es) None).
    rewrite buildStates_ready, Hg. reflexivity.
  - cbn [state_filters]. rewrite groupStateFilters_lookup, Hf. reflexivity.
  - cbn [isSelected]. apply bool_decide_eq_true.
    apply replaceGroupKeys_spec. right. exists f. split; [constructor | done].
  - cbn [matchCount].
    change (matchingEntities s') with
      (buildMatchingEntities c
         (replaceGroupKeys g [f] (selectedFilterKeys s)) (Some es) None).
    rewrite (buildMatchingEntities_split_group _ _ es g fg Hg).
    f_equal. apply filter_pointwise. intros e. symmetry. by apply groupAccepts_single.
Qed.

(** X7: [register] only adds to the selection: a key is selected afterwards
    exactly when it was selected before or is the key of the registered
    group and one of the initial ids; with the initial ids missing or empty
    the selection is the same set. *)
Theorem register_merges_selection c g fg (initial : option (list string)) s :
  (∀ k, k ∈ selectedFilterKeys (register entities error c g fg initial s) ↔
        k ∈ selectedFilterKeys s ∨ ∃ f, f ∈ default [] initial ∧ k = selectionKey g f) ∧
  (default [] initial = [] →
   selectedFilterKeys (register entities error c g fg initial s) = selectedFilterKeys s).
Proof.
  split.
  - intros k. apply registerKeys_spec.
  - intros Hnil. apply set_eq. intros k.
    change (selectedFilterKeys (register entities error c g fg initial s)) with
      (registerKeys g initial (selectedFilterKeys s)).
    rewrite registerKeys_spec, Hnil. split; [| by left].
    intros [? | (f & Hf & _)]; [done |]. by apply elem_of_nil in Hf.
Qed.

(** X8: for one group the last call of [setGroupSelectedFilters] decides:
    two calls in a row leave the store the second call alone leaves,
    whatever registry the first call had captured. *)
Theorem setGroupSelectedFilters_last_call_wins c c' g (fids1 fids2 : list string) s :
  setGroupSelectedFilters entities error c g fids2
    (setGroupSelectedFilters entities error c' g fids1 s) =
  setGroupSelectedFilters entities error c g fids2 s.
Proof.
  apply setGroupSelectedFilters_eq; [done |]. apply replaceGroupKeys_overwrite.
Qed.

(** X9: calls of [setGroupSelectedFilters] for two different groups whose
    ids contain no dot commute. *)
Theorem setGroupSelectedFilters_commute c g1 g2 (fids1 fids2 : list string) s :
  g1 ≠ g2 → hasDot g1 = false → hasDot g2 = false →
  setGroupSelectedFilters entities error c g1 fids1
    (setGroupSelectedFilters entities error c g2 fids2 s) =
  setGroupSelectedFilters entities error c g2 fids2
    (setGroupSelectedFilters entities error c g1 fids1 s).
Proof.
  intros Hne H1 H2. unfold setGroupSelectedFilters. cbn [filterGroups selectedFilterKeys].
  by rewrite (replaceGroupKeys_commute g1 g2 fids1 fids2 _ Hne H1 H2).
Qed.

(** X10: the engine reads the selection only at the keys of registered
    filters: two selections that agree on those keys give the same states
    and the same matching lists. *)
Theorem engine_reads_registered_keys_only fgs sel sel' :
  (∀ gid fg fid fn, fgs !! gid = Some fg → filters fg !! fid = Some fn →
                    (selectionKey gid fid ∈ sel ↔ selectionKey gid fid ∈ sel')) →
  buildStates fgs sel entities error = buildStates fgs sel' entities error ∧
  ∀ excl, buildMatchingEntities fgs sel entities excl =
          buildMatchingEntities fgs sel' entities excl.
Proof.
  intros Hsame. split; [| intros excl; by apply buildMatchingEntities_ext].
  apply map_eq. intros gid.
  destruct error as [err|]; [by rewrite !buildStates_error |].
  destruct entities as [es|]; [| by rewrite !buildStates_loading].
  rewrite !buildStates_ready. destruct (fgs !! gid) as [fg|] eqn:Hg; [| done].
  cbn [fmap option_fmap option_map]. do 3 f_equal.
  rewrite <- (buildMatchingEntities_ext fgs sel sel' (Some es) (Some gid) Hsame).
  apply map_eq. intros fid. rewrite !groupStateFilters_lookup.
  destruct (filters fg !! fid) as [fn|] eqn:Hf; [| done].
  cbn [fmap option_fmap option_map]. do 2 f_equal.
  apply bool_decide_ext. by eapply Hsame.
Qed.

(** X11: [unregister] of a group id that is not registered, called from a
    render that has captured the registry of the store (no other registry
    update is pending), changes neither the registry nor the selection, and
    publishes the states and the matching list of that registry and
    selection. *)
Theorem unregister_absent_group c g s :
  c = filterGroups s →
  filterGroups s !! g = None →
  let s' := unregister entities error c g s in
  filterGroups s' = filterGroups s ∧
  selectedFilterKeys s' = selectedFilterKeys s ∧
  filterGroupStates s' =
    buildStates (filterGroups s') (selectedFilterKeys s') entities error ∧
  matchingEntities s' =
    buildMatchingEntities (filterGroups s') (selectedFilterKeys s') entities None.
Proof.
  intros -> Hg s'.
  assert (filterGroups s' = filterGroups s) as Hreg.
  { unfold s'. rewrite unregister_filterGroups. by apply delete_id. }
  split; [done |]. split; [done |]. rewrite Hreg. by split.
Qed.


(** X13: after [setGroupSelectedFilters g []] the group [g] asks nothing:
    the published matching list is the list [buildMatchingEntities] gives,
    for the registry the callback has captured and the new selection, with
    [g] excluded. *)
Theorem cleared_group_imposes_nothing c g s :
  let s' := setGroupSelectedFilters entities error c g [] s in
  matchingEntities s' =
    buildMatchingEntities c (selectedFilterKeys s') entities (Some g).
Proof.
  intros s'.
  change (matchingEntities s') with
    (buildMatchingEntities c
       (replaceGroupKeys g [] (selectedFilterKeys s)) entities None).
  change (selectedFilterKeys s') with (replaceGroupKeys g [] (selectedFilterKeys s)).
  destruct entities as [es|]; [| done].
  destruct (c !! g) as [fg|] eqn:Hg.
  - rewrite (buildMatchingEntities_split_group _ _ es g fg Hg).
    apply filter_all. intros e _. apply groupAccepts_true.
    intros (fid & fn & _ & Hk).
    apply replaceGroupKeys_spec in Hk as [[_ Hno] | (f' & Hf' & _)].
    + by rewrite selectionKey_startsWith in Hno.
    + by apply elem_of_nil in Hf'.
  - by rewrite buildMatchingEntities_exclude_unregistered.
Qed.
End Callbacks.

(** ** The callbacks and the load result *)

Section LoadResult.
Context {Entity Error : Type}.
Variable entities : option (list Entity).
Variable error : option Error.
Implicit Types (s : Store Entity Error) (fg : FilterGroup Entity) (g : string).
Implicit Types (c : gmap string (FilterGroup Entity)).

(** Each callback publishes the states and the matching list of the
    captured registry and some selection under the captured load result. *)
Lemma callbacks_publish_built_values c g fg (initial : option (list string))
    (fids : list string) s s' :
  s' ∈ [register entities error c g fg initial s;
        unregister entities error c g s;
        setGroupSelectedFilters entities error c g fids s] →
  ∃ sel,
    filterGroupStates s' = buildStates c sel entities error ∧
    matchingEntities s' = buildMatchingEntities c sel entities None.
Proof.
  intros Hin.
  apply elem_of_cons in Hin as [-> | Hin]; [by eexists |].
  apply elem_of_cons in Hin as [-> | Hin]; [by eexists |].
  apply list_elem_of_singleton in Hin as ->. by eexists.
Qed.

(** X14: whichever of the three callbacks runs, the load result decides
    the published states: with an error, every group of the captured
    registry is published in the error state carrying that error and no
    other id has a state; with neither error nor entities, every group of
    the captured registry is published as loading and no other id has a
    state; and without entities the published matching list is empty, error
    or not. *)
Theorem callbacks_follow_load_result c g fg (initial : option (list string))
    (fids : list string) s s' :
  s' ∈ [register entities error c g fg initial s;
        unregister entities error c g s;
        setGroupSelectedFilters entities error c g fids s] →
  (∀ err gid, error = Some err →
              filterGroupStates s' !! gid = (λ _, StError err) <$> c !! gid) ∧
  (∀ gid, error = None → entities = None →
          filterGroupStates s' !! gid = (λ _, StLoading) <$> c !! gid) ∧
  (entities = None → matchingEntities s' = []).
Proof.
  intros Hin.
  destruct (callbacks_publish_built_values c g fg initial fids s s' Hin)
    as (sel & -> & ->).
  split; [| split].
  - intros err gid ->. apply buildStates_error.
  - intros gid -> ->. apply buildStates_loading.
  - by intros ->.
Qed.
End LoadResult.

(** ** The sidebar component *)

Section Sidebar.
Context {Entity Error : Type}.
Implicit Types (options : CatalogFilter.EntityFilterOptions Entity).
Implicit Types
  (entityFilters : gmap string (Entity → CatalogFilter.EntityFilterOptions Entity → bool)).
Implicit Types (sel : gset string) (es : list Entity) (g f : string).





(** X16: [getFilterCount] and the rendered cell, on the state
    [buildStates] gives a registered group that has no filter named
    [__proto__] (so that the object of per-filter entries is a plain object
    with exactly the group's filter ids as own properties).  With an error
    or without entities [getFilterCount] returns [undefined] and the cell
    shows a dash.  Otherwise, for a filter id of the group, it returns the
    count of that filter and the cell shows that number, zero included; for
    an id that is not a filter of the group but names a property of
    [Object.prototype] it returns [undefined] and the cell shows a dash;
    for any other id the property access throws. *)
Theorem getFilterCount_of_built_state
    (fgs : gmap string (FilterGroup Entity)) sel (ents : option (list Entity))
    (err : option Error) g fg st fid :
  fgs !! g = Some fg →
  filters fg !! "__proto__" = None →
  buildStates fgs sel ents err !! g = Some st →
  CatalogFilter.getFilterCount st fid =
    match err, ents with
    | None, Some es =>
        match filters fg !! fid with
        | Some fn =>
            CatalogFilter.Returned
              (Some (length (List.filter fn
                               (buildMatchingEntities fgs sel (Some es) (Some g)))))
        | None =>
            if decide (fid ∈ CatalogFilter.objectPrototypeKeys)
            then CatalogFilter.Returned None
            else CatalogFilter.TypeError
        end
    | _, _ => CatalogFilter.Returned None
    end ∧
  CatalogFilter.countCell st fid =
    match err, ents with
    | None, Some es =>
        match filters fg !! fid with
        | Some fn =>
            CatalogFilter.Returned
              (inl (length (List.filter fn
                              (buildMatchingEntities fgs sel (Some es) (Some g)))))
        | None =>
            if decide (fid ∈ CatalogFilter.objectPrototypeKeys)
            then CatalogFilter.Returned (inr "-")
            else CatalogFilter.TypeError
        end
    | _, _ => CatalogFilter.Returned (inr "-")
    end.
Proof.
  intros Hg _ Hst. unfold CatalogFilter.countCell.
  destruct err as [e|].
  { rewrite buildStates_error, Hg in Hst. injection Hst as <-. by split. }
  destruct ents as [es|].
  2: { rewrite buildStates_loading, Hg in Hst. injection Hst as <-. by split. }
  rewrite buildStates_ready, Hg in Hst. apply (inj Some) in Hst. subst st.
  unfold CatalogFilter.getFilterCount, CatalogFilter.getProperty.
  cbn [state_filters]. rewrite groupStateFilters_lookup.
  destruct (filters fg !! fid); [done |].
  cbn [fmap option_fmap option_map]. by case_decide.
Qed.

End Sidebar.

(** ** Instances of the further properties *)

Lemma exclude_unregistered_group_witness :
  sampleRegistry !! "G9" = None ∧
  buildMatchingEntities sampleRegistry {["G1.f1"]} (Some sampleEntities) (Some "G9") =
  buildMatchingEntities sampleRegistry {["G1.f1"]} (Some sampleEntities) None.
Proof.
  assert (sampleRegistry !! "G9" = None) as H by reflexivity.
  split; [exact H |].
  exact (exclude_unregistered_group sampleRegistry {["G1.f1"]}
           (Some sampleEntities) "G9" H).
Defined.

Lemma global_list_from_context_list_witness :
  sampleRegistry !! "G1" = Some G1 ∧
  buildMatchingEntities sampleRegistry ({["G1.f1"; "G2.f2"]} : gset string)
    (Some sampleEntities) None =
  List.filter (groupAccepts ({["G1.f1"; "G2.f2"]} : gset string) "G1" G1)
    (buildMatchingEntities sampleRegistry ({["G1.f1"; "G2.f2"]} : gset string)
       (Some sampleEntities) (Some "G1")).
Proof.
  assert (sampleRegistry !! "G1" = Some G1) as H by reflexivity.
  split; [exact H |].
  exact (proj1 (global_list_from_context_list sampleRegistry
                  ({["G1.f1"; "G2.f2"]} : gset string) sampleEntities "G1" G1 H)).
Defined.

Lemma matchCount_bounds_witness :
  ∃ st entry,
    sampleRegistry !! "G1" = Some G1 ∧
    filters G1 !! "f1" = Some (tagIs "a") ∧
    buildStates (Error := unit) sampleRegistry {["G2.f2"]} (Some sampleEntities) None
      !! "G1" = Some (StReady st) ∧
    state_filters st !! "f1" = Some entry ∧
    length (List.filter (tagIs "a")
              (buildMatchingEntities sampleRegistry {["G2.f2"]}
                 (Some sampleEntities) None)) ≤ matchCount entry ∧
    matchCount entry ≤ length sampleEntities.
Proof.
  assert (sampleRegistry !! "G1" = Some G1) as Hg by reflexivity.
  assert (filters G1 !! "f1" = Some (tagIs "a")) as Hf by reflexivity.
  assert (buildStates (Error := unit) sampleRegistry {["G2.f2"]}
            (Some sampleEntities) None !! "G1" =
          Some (StReady {| state_filters :=
                  groupStateFilters {["G2.f2"]}
                    (buildMatchingEntities sampleRegistry {["G2.f2"]}
                       (Some sampleEntities) (Some "G1")) "G1" G1 |})) as Hst
    by (by rewrite buildStates_ready, Hg).
  assert (groupStateFilters {["G2.f2"]}
            (buildMatchingEntities sampleRegistry {["G2.f2"]}
               (Some sampleEntities) (Some "G1")) "G1" G1 !! "f1" =
          Some {| isSelected := false; matchCount := 1 |}) as Hentry
    by (vm_compute; reflexivity).
  do 2 eexists. split; [exact Hg |]. split; [exact Hf |].
  split; [exact Hst |]. split; [exact Hentry |].
  exact (matchCount_bounds (Error := unit) sampleRegistry {["G2.f2"]} sampleEntities
           "G1" G1 "f1" (tagIs "a") _ _ Hg Hf Hst Hentry).
Defined.

Lemma single_selection_count_is_list_length_witness :
  let s1 : Store SampleEntity unit :=
    register (Some sampleEntities) None ∅ "G1" G1 None emptyStore in
  let c := filterGroups s1 in
  let s2 := register (Some sampleEntities) None c "G2" G2 (Some ["f2"]) s1 in
  let s' := setGroupSelectedFilters (Some sampleEntities) None c "G1" ["f1"] s2 in
  c !! "G1" = Some G1 ∧
  filters G1 !! "f1" = Some (tagIs "a") ∧
  filterGroups s2 ≠ c ∧
  ∃ st entry,
    filterGroupStates s' !! "G1" = Some (StReady st) ∧
    state_filters st !! "f1" = Some entry ∧
    isSelected entry = true ∧
    matchCount entry = length (matchingEntities s').
Proof.
  intros s1 c s2 s'.
  assert (c !! "G1" = Some G1) as Hg by reflexivity.
  assert (filters G1 !! "f1" = Some (tagIs "a")) as Hf by reflexivity.
  split; [exact Hg |]. split; [exact Hf |]. split.
  - intros Heq. assert (filterGroups s2 !! "G2" = c !! "G2") as H by (by rewrite Heq).
    vm_compute in H. discriminate H.
  - exact (single_selection_count_is_list_length (Error := unit)
             c "G1" "f1" G1 (tagIs "a") s2 sampleEntities Hg Hf).
Defined.

Lemma setGroupSelectedFilters_commute_witness :
  let s : Store SampleEntity unit := emptyStore in
  "G1" ≠ "G2" ∧ hasDot "G1" = false ∧ hasDot "G2" = false ∧
  setGroupSelectedFilters (Some sampleEntities) None sampleRegistry "G1" ["f1"]
    (setGroupSelectedFilters (Some sampleEntities) None sampleRegistry "G2" ["f2"] s) =
  setGroupSelectedFilters (Some sampleEntities) None sampleRegistry "G2" ["f2"]
    (setGroupSelectedFilters (Some sampleEntities) None sampleRegistry "G1" ["f1"] s).
Proof.
  intros s.
  assert ("G1" ≠ "G2") as Hne by discriminate.
  assert (hasDot "G1" = false) as H1 by reflexivity.
  assert (hasDot "G2" = false) as H2 by reflexivity.
  split; [exact Hne |]. split; [exact H1 |]. split; [exact H2 |].
  exact (setGroupSelectedFilters_commute (Some sampleEntities) None
           sampleRegistry "G1" "G2" ["f1"] ["f2"] s Hne H1 H2).
Defined.

Lemma engine_reads_registered_keys_only_witness :
  (∀ gid fg fid fn, sampleRegistry !! gid = Some fg → filters fg !! fid = Some fn →
     (selectionKey gid fid ∈ ({["G1.f1"]} : gset string) ↔
      selectionKey gid fid ∈ ({["G1.f1"; "G3.zz"]} : gset string))) ∧
  buildStates (Error := unit) sampleRegistry {["G1.f1"]} (Some sampleEntities) None =
  buildStates sampleRegistry ({["G1.f1"; "G3.zz"]} : gset string)
    (Some sampleEntities) None.
Proof.
  assert (∀ gid fg fid fn, sampleRegistry !! gid = Some fg →
            filters fg !! fid = Some fn →
            (selectionKey gid fid ∈ ({["G1.f1"]} : gset string) ↔
             selectionKey gid fid ∈ ({["G1.f1"; "G3.zz"]} : gset string))) as Hsame.
  { intros gid fg fid fn Hg Hf. unfold sampleRegistry in Hg.
    apply lookup_insert_Some in Hg as [[<- <-] | [_ Hg]].
    - unfold G1 in Hf. cbn [filters] in Hf.
      apply lookup_singleton_Some in Hf as [<- _].
      split; intros _; apply elem_of_keys; vm_compute; reflexivity.
    - apply lookup_singleton_Some in Hg as [<- <-].
      unfold G2 in Hf. cbn [filters] in Hf.
      apply lookup_singleton_Some in Hf as [<- _].
      split; intros H; exfalso; revert H; apply not_elem_of_keys;
        vm_compute; reflexivity. }
  split; [exact Hsame |].
  exact (proj1 (engine_reads_registered_keys_only (Error := unit)
                  (Some sampleEntities) None sampleRegistry _ _ Hsame)).
Defined.

Lemma unregister_absent_group_witness :
  let s : Store SampleEntity unit :=
    register (Some sampleEntities) None ∅ "G1" G1 (Some ["f1"]) emptyStore in
  let s' := unregister (Some sampleEntities) None (filterGroups s) "G2" s in
  filterGroups s !! "G2" = None ∧
  filterGroups s' = filterGroups s ∧
  selectedFilterKeys s' = selectedFilterKeys s ∧
  filterGroupStates s' =
    buildStates (filterGroups s') (selectedFilterKeys s') (Some sampleEntities) None ∧
  matchingEntities s' =
    buildMatchingEntities (filterGroups s') (selectedFilterKeys s')
      (Some sampleEntities) None.
Proof.
  intros s s'.
  assert (filterGroups s !! "G2" = None) as H by reflexivity.
  split; [exact H |].
  exact (unregister_absent_group (Some sampleEntities) None
           (filterGroups s) "G2" s eq_refl H).
Defined.


Lemma callbacks_follow_load_result_witness :
  let s : Store SampleEntity unit := storeOfKeys {["G1.f1"]} in
  let failed := unregister None (Some tt) sampleRegistry "G1" s in
  let pending := setGroupSelectedFilters None None sampleRegistry "G1" [] s in
  failed ∈ [register None (Some tt) sampleRegistry "G1" G1 None s;
            unregister None (Some tt) sampleRegistry "G1" s;
            setGroupSelectedFilters None (Some tt) sampleRegistry "G1" [] s] ∧
  pending ∈ [register None None sampleRegistry "G1" G1 None s;
             unregister None None sampleRegistry "G1" s;
             setGroupSelectedFilters None None sampleRegistry "G1" [] s] ∧
  filterGroupStates failed !! "G1" = Some (StError tt) ∧
  filterGroupStates failed !! "G2" = Some (StError tt) ∧
  filterGroupStates failed !! "G9" = None ∧
  filterGroupStates pending !! "G1" = Some StLoading ∧
  matchingEntities pending = [].
Proof.
  intros s failed pending.
  assert (failed ∈ [register None (Some tt) sampleRegistry "G1" G1 None s;
                    unregister None (Some tt) sampleRegistry "G1" s;
                    setGroupSelectedFilters None (Some tt) sampleRegistry "G1" [] s])
    as Hfailed by (apply list_elem_of_further, list_elem_of_here).
  assert (pending ∈ [register None None sampleRegistry "G1" G1 None s;
                     unregister None None sampleRegistry "G1" s;
                     setGroupSelectedFilters None None sampleRegistry "G1" [] s])
    as Hpending
    by (apply list_elem_of_further, list_elem_of_further, list_elem_of_here).
  destruct (callbacks_follow_load_result None (Some tt) sampleRegistry
              "G1" G1 None [] s failed Hfailed) as (Herr & _ & _).
  destruct (callbacks_follow_load_result None None sampleRegistry
              "G1" G1 None [] s pending Hpending) as (_ & Hload & Hlist).
  split; [exact Hfailed |]. split; [exact Hpending |].
  split; [exact (Herr tt "G1" eq_refl) |].
  split; [exact (Herr tt "G2" eq_refl) |].
  split; [exact (Herr tt "G9" eq_refl) |].
  split; [exact (Hload "G1" eq_refl eq_refl) | exact (Hlist eq_refl)].
Defined.


Lemma getFilterCount_of_built_state_witness :
  ∃ st,
    sampleRegistry !! "G1" = Some G1 ∧
    filters G1 !! "__proto__" = None ∧
    buildStates (Error := unit) sampleRegistry {["G2.f2"]} (Some sampleEntities) None
      !! "G1" = Some st ∧
    CatalogFilter.getFilterCount st "f1" = CatalogFilter.Returned (Some 1) ∧
    CatalogFilter.getFilterCount st "zz" = CatalogFilter.TypeError ∧
    CatalogFilter.getFilterCount st "toString" = CatalogFilter.Returned None ∧
    CatalogFilter.countCell st "f1" = CatalogFilter.Returned (inl 1) ∧
    CatalogFilter.countCell st "constructor" = CatalogFilter.Returned (inr "-").
Proof.
  assert (sampleRegistry !! "G1" = Some G1) as Hg by reflexivity.
  assert (filters G1 !! "__proto__" = None) as Hp by reflexivity.
  assert (buildStates (Error := unit) sampleRegistry {["G2.f2"]}
            (Some sampleEntities) None !! "G1" =
          Some (StReady {| state_filters :=
                  groupStateFilters {["G2.f2"]}
                    (buildMatchingEntities sampleRegistry {["G2.f2"]}
                       (Some sampleEntities) (Some "G1")) "G1" G1 |})) as Hst
    by (by rewrite buildStates_ready, Hg).
  eexists. split; [exact Hg |]. split; [exact Hp |]. split; [exact Hst |].
  split; [| split; [| split; [| split]]].
  - exact (proj1 (getFilterCount_of_built_state sampleRegistry {["G2.f2"]}
                    (Some sampleEntities) None "G1" G1 _ "f1" Hg Hp Hst)).
  - exact (proj1 (getFilterCount_of_built_state sampleRegistry {["G2.f2"]}
                    (Some sampleEntities) None "G1" G1 _ "zz" Hg Hp Hst)).
  - exact (proj1 (getFilterCount_of_built_state sampleRegistry {["G2.f2"]}
                    (Some sampleEntities) None "G1" G1 _ "toString" Hg Hp Hst)).
  - exact (proj2 (getFilterCount_of_built_state sampleRegistry {["G2.f2"]}
                    (Some sampleEntities) None "G1" G1 _ "f1" Hg Hp Hst)).
  - exact (proj2 (getFilterCount_of_built_state sampleRegistry {["G2.f2"]}
                    (Some sampleEntities) None "G1" G1 _ "constructor" Hg Hp Hst)).
Defined.

